(** * cr_2: a Google Scholar collector, verified against its description

    A shallow embedding of [cr_2.py]: the citation parser, the per-page
    extraction over a document tree, the navigation and challenge gate over
    an explicit browser state, the aggregation sort and the export name.

    Conventions.
    - A Python [str] is a list of Unicode code points ([N]); literals are
      written as UTF-8 Rocq strings and decoded by [u].
    - A Python [int] is a [Z]; [int()] refuses a decimal string longer
      than the interpreter's limit ([int_max_str_digits], CPython's
      default), and a column of a frame holds 64-bit integers.
    - Code that may raise returns an [outcome]; code that drives the browser
      passes a [world] along and appends to its event log.
    - The site is what the browser meets: a request is answered with a
      page or with a failure of the driver, and a page stays as it was
      loaded. The browser itself is taken to start and to stay up until
      [quit]: scrolling and the lookups in a loaded page do not fail by
      themselves. *)

From Stdlib Require Import List ZArith NArith String Ascii Bool Lia.
From Stdlib Require Import Permutation Sorted.
Import ListNotations.

Set Implicit Arguments.
Set Warnings "-register-all".

(** ** Python strings *)

Definition str := list N.

(** UTF-8 decoding of a literal (well-formed input only; a stray byte is
    kept as its own value). *)
Fixpoint utf8_decode (bs : list N) (fuel : nat) : str :=
  match fuel with
  | O => []
  | S fuel' =>
    match bs with
    | [] => []
    | b0 :: r0 =>
      if (b0 <? 128)%N then b0 :: utf8_decode r0 fuel'
      else if (b0 <? 224)%N then
        match r0 with
        | b1 :: r1 =>
            ((b0 - 192) * 64 + (b1 - 128))%N :: utf8_decode r1 fuel'
        | _ => [b0]
        end
      else if (b0 <? 240)%N then
        match r0 with
        | b1 :: b2 :: r2 =>
            ((b0 - 224) * 4096 + (b1 - 128) * 64 + (b2 - 128))%N
              :: utf8_decode r2 fuel'
        | _ => b0 :: r0
        end
      else
        match r0 with
        | b1 :: b2 :: b3 :: r3 =>
            ((b0 - 240) * 262144 + (b1 - 128) * 4096
             + (b2 - 128) * 64 + (b3 - 128))%N :: utf8_decode r3 fuel'
        | _ => b0 :: r0
        end
    end
  end.

Definition u (s : string) : str :=
  let bs := map N_of_ascii (list_ascii_of_string s) in
  utf8_decode bs (List.length bs).

Fixpoint str_eqb (a b : str) : bool :=
  match a, b with
  | [], [] => true
  | x :: a', y :: b' => (x =? y)%N && str_eqb a' b'
  | _, _ => false
  end.

Fixpoint starts_with (p s : str) : bool :=
  match p, s with
  | [], _ => true
  | x :: p', y :: s' => (x =? y)%N && starts_with p' s'
  | _ :: _, [] => false
  end.

(** [needle in hay] *)
Fixpoint contains (hay needle : str) : bool :=
  starts_with needle hay
  || match hay with
     | [] => false
     | _ :: hay' => contains hay' needle
     end.

(** [str.isspace] for one character (Unicode 14 bidirectional types WS, B, S
    and category Zs, as CPython 3.11 has them). *)
Definition is_space (c : N) : bool :=
  ((9 <=? c) && (c <=? 13) || (28 <=? c) && (c <=? 32) || (c =? 133)
   || (c =? 160) || (c =? 5760) || (8192 <=? c) && (c <=? 8202)
   || (c =? 8232) || (c =? 8233) || (c =? 8239) || (c =? 8287)
   || (c =? 12288))%N.

Fixpoint lstrip (s : str) : str :=
  match s with
  | c :: s' => if is_space c then lstrip s' else s
  | [] => []
  end.

Definition rstrip (s : str) : str := rev (lstrip (rev s)).

(** [str.strip()] *)
Definition strip (s : str) : str := rstrip (lstrip s).

(** [str.lower()] on the ASCII letters; a cased letter outside ASCII is left
    as it is. The challenge phrases are ASCII or Hangul, which has no
    case, and outside ASCII only U+0130 and U+212A lower to an ASCII
    letter ([i] followed by a combining dot, and [k]): no phrase has a
    [k], nor an [i] before a combining dot, so the tests of the gate come
    out as with the full table. *)
Definition lower_char (c : N) : N :=
  if ((65 <=? c) && (c <=? 90))%N then (c + 32)%N else c.

Definition lower (s : str) : str := map lower_char s.

(** ** Unicode decimal digits: [\d] and [int()] *)

(** The code points of value zero of every block of category Nd
    (Unicode 14.0); each is followed by the digits one to nine. *)
Definition nd_zeros : list N :=
  [ 0x30; 0x660; 0x6f0; 0x7c0; 0x966; 0x9e6; 0xa66; 0xae6; 0xb66; 0xbe6;
    0xc66; 0xce6; 0xd66; 0xde6; 0xe50; 0xed0; 0xf20; 0x1040; 0x1090;
    0x17e0; 0x1810; 0x1946; 0x19d0; 0x1a80; 0x1a90; 0x1b50; 0x1bb0;
    0x1c40; 0x1c50; 0xa620; 0xa8d0; 0xa900; 0xa9d0; 0xa9f0; 0xaa50;
    0xabf0; 0xff10; 0x104a0; 0x10d30; 0x11066; 0x110f0; 0x11136; 0x111d0;
    0x112f0; 0x11450; 0x114d0; 0x11650; 0x116c0; 0x11730; 0x118e0;
    0x11950; 0x11c50; 0x11d50; 0x11da0; 0x16a60; 0x16ac0; 0x16b50;
    0x1d7ce; 0x1d7d8; 0x1d7e2; 0x1d7ec; 0x1d7f6; 0x1e140; 0x1e2f0;
    0x1e950; 0x1fbf0 ]%N.

Fixpoint digit_in (zeros : list N) (c : N) : option Z :=
  match zeros with
  | [] => None
  | z :: zs =>
      if ((z <=? c) && (c <? z + 10))%N then Some (Z.of_N (c - z))
      else digit_in zs c
  end.

(** The decimal value of a character, when it is a decimal digit. *)
Definition digit_value (c : N) : option Z := digit_in nd_zeros c.

Definition is_digit (c : N) : bool :=
  match digit_value c with Some _ => true | None => false end.

(** ** Exceptions and outcomes *)

Inductive exn : Type :=
| NoSuchElementException
| TimeoutException
| WebDriverException
| ValueError
| StopException.

(** [StopException] derives from [BaseException] only: an
    [except Exception] clause lets it through. *)
Definition is_Exception (e : exn) : bool :=
  match e with
  | StopException => false
  | _ => true
  end.

Inductive outcome (A : Type) : Type :=
| Ret (a : A)
| Raise (e : exn).
Arguments Ret {A} a.
Arguments Raise {A} e.

(** The number a string of decimal digits denotes, read from the left;
    [ValueError] at a character that is no digit. *)
Fixpoint int_digits (acc : Z) (s : str) : outcome Z :=
  match s with
  | [] => Ret acc
  | c :: s' =>
      match digit_value c with
      | Some d => int_digits (10 * acc + d) s'
      | None => Raise ValueError
      end
  end.

(** [sys.int_info.default_max_str_digits]: the longest decimal string
    [int()] converts (CPython 3.11; the limit can be changed by the
    process, the source does not change it). *)
Definition int_max_str_digits : Z := 4300.

(** [int(s)] on a string of decimal digits: [ValueError] for the empty
    string and for one longer than the limit. A sign, blanks and
    underscores are accepted by Python as well; here they raise, so the
    model raises at least as often as the interpreter. *)
Definition py_int (s : str) : outcome Z :=
  match s with
  | [] => Raise ValueError
  | _ =>
      if (int_max_str_digits <? Z.of_nat (List.length s))%Z
      then Raise ValueError
      else int_digits 0 s
  end.

(** The longest prefix of decimal digits. *)
Fixpoint take_digits (s : str) : str :=
  match s with
  | c :: s' => if is_digit c then c :: take_digits s' else []
  | [] => []
  end.

(** [re.search(r"(\d+)", text)]: group 1 of the leftmost match, which is
    greedy. *)
Fixpoint re_search_digits (text : str) : option str :=
  match text with
  | [] => None
  | c :: text' =>
      if is_digit c then Some (c :: take_digits text')
      else re_search_digits text'
  end.

(** [parse_citations_text]; [None] is Python's [None]. *)
Definition parse_citations_text (text : option str) : outcome Z :=
  match text with
  | None => Ret 0%Z
  | Some [] => Ret 0%Z
  | Some t =>
      match re_search_digits t with
      | Some g => py_int g
      | None => Ret 0%Z
      end
  end.


(** ** The rendered document *)

(** An element has a tag (lower case), attributes and children; text nodes
    hold character data. *)
Inductive node : Type :=
| Elem (tag : str) (attrs : list (str * str)) (kids : list node)
| Text (data : str).

Fixpoint get_attr (name : str) (attrs : list (str * str)) : option str :=
  match attrs with
  | [] => None
  | (k, v) :: rest => if str_eqb k name then Some v else get_attr name rest
  end.

Definition node_attr (name : str) (n : node) : option str :=
  match n with
  | Elem _ attrs _ => get_attr name attrs
  | Text _ => None
  end.

Definition node_tag (n : node) : option str :=
  match n with
  | Elem t _ _ => Some t
  | Text _ => None
  end.

Definition has_tag (t : str) (n : node) : bool :=
  match node_tag n with
  | Some t' => str_eqb t' t
  | None => false
  end.

(** The raw [class] attribute; the empty string when there is none, as
    XPath's [@class] and a CSS class selector both see it. *)
Definition class_attr (n : node) : str :=
  match node_attr (u "class") n with
  | Some v => v
  | None => []
  end.

(** HTML's blanks between class names. *)
Definition is_html_space (c : N) : bool :=
  ((c =? 32) || (c =? 9) || (c =? 10) || (c =? 12) || (c =? 13))%N.

(** Splitting at blanks: [cur] is the token being read, reversed. *)
Fixpoint tokens_from (cur : str) (s : str) : list str :=
  match s with
  | [] => match cur with [] => [] | _ => [rev cur] end
  | c :: s' =>
      if is_html_space c
      then match cur with
           | [] => tokens_from [] s'
           | _ => rev cur :: tokens_from [] s'
           end
      else tokens_from (c :: cur) s'
  end.

Definition class_tokens (n : node) : list str := tokens_from [] (class_attr n).

Definition has_class (c : str) (n : node) : bool :=
  existsb (str_eqb c) (class_tokens n).

(** All nodes below [n], in document order, [n] left out. *)
Fixpoint descendants (n : node) : list node :=
  match n with
  | Text _ => []
  | Elem _ _ kids => flat_map (fun k => k :: descendants k) kids
  end.

(** The concatenated character data of a subtree: XPath's string value of
    an element. Selenium's [.text] is taken to be the same string (styling
    and the collapsing of blanks by rendering are not modelled). *)
Fixpoint text_content (n : node) : str :=
  match n with
  | Text d => d
  | Elem _ _ kids => flat_map text_content kids
  end.

(** An element as Selenium hands it out: the node and its ancestors,
    nearest first. *)
Record element : Type := mkElement {
  el_node : node;
  el_ancestors : list node
}.

(** Every node of the tree under [n] with its ancestors, in document order,
    [n] itself first. *)
Fixpoint elements_from (anc : list node) (n : node) : list element :=
  mkElement n anc ::
  match n with
  | Text _ => []
  | Elem _ _ kids => flat_map (elements_from (n :: anc)) kids
  end.

(** *** Selectors of the source *)

(** [div.gs_ri] *)
Definition sel_card (n : node) : bool :=
  has_tag (u "div") n && has_class (u "gs_ri") n.

(** [h3.gs_rt] *)
Definition sel_heading (n : node) : bool :=
  has_tag (u "h3") n && has_class (u "gs_rt") n.

(** [a] *)
Definition sel_anchor (n : node) : bool := has_tag (u "a") n.

(** [div.gs_fl.gs_flb] *)
Definition sel_toolbar (n : node) : bool :=
  has_tag (u "div") n && has_class (u "gs_fl") n && has_class (u "gs_flb") n.

(** [a[href*='cites=']] *)
Definition sel_cites_link (n : node) : bool :=
  has_tag (u "a") n &&
  match node_attr (u "href") n with
  | Some h => contains h (u "cites=")
  | None => false
  end.

(** [.//a[contains(., '인용') or contains(., 'Cited by')]] *)
Definition sel_cited_by_text (n : node) : bool :=
  has_tag (u "a") n &&
  (contains (text_content n) (u "인용")
   || contains (text_content n) (u "Cited by")).

(** The node test and predicate of
    [./ancestor-or-self::div[contains(@class,'gs_r') or
    contains(@class,'gs_scl')][1]]. *)
Definition sel_result_block (n : node) : bool :=
  has_tag (u "div") n &&
  (contains (class_attr n) (u "gs_r") || contains (class_attr n) (u "gs_scl")).

(** [[name="q"]], which is what [By.NAME, "q"] stands for. *)
Definition sel_query_box (n : node) : bool :=
  match node_attr (u "name") n with
  | Some v => str_eqb v (u "q")
  | None => false
  end.

(** *** Element lookups *)

(** [element.find_element(...)]: the first match below the element, or
    [NoSuchElementException]. *)
Definition find_element (sel : node -> bool) (n : node) : outcome node :=
  match filter sel (descendants n) with
  | m :: _ => Ret m
  | [] => Raise NoSuchElementException
  end.

(** [driver.find_elements(...)]: every match of the document, the root
    included, in document order. *)
Definition driver_find_elements (sel : node -> bool) (root : node)
  : list element :=
  filter (fun e => sel (el_node e)) (elements_from [] root).

(** [driver.find_element(...)] *)
Definition driver_find_element (sel : node -> bool) (root : node)
  : outcome element :=
  match driver_find_elements sel root with
  | e :: _ => Ret e
  | [] => Raise NoSuchElementException
  end.

(** The XPath lookup of the result block from a card: the axis is walked
    from the element itself outward and [[1]] keeps the nearest match. *)
Definition find_result_block (card : element) : outcome node :=
  match filter sel_result_block (el_node card :: el_ancestors card) with
  | m :: _ => Ret m
  | [] => Raise NoSuchElementException
  end.

(** ** Control flow of the element-level code *)

Definition bind {A B : Type} (m : outcome A) (f : A -> outcome B)
  : outcome B :=
  match m with
  | Ret a => f a
  | Raise e => Raise e
  end.

Notation "x <- m ;; k" := (bind m (fun x => k))
  (at level 61, m at next level, right associativity).

(** [try: body  except NoSuchElementException: handler] *)
Definition except_NoSuchElement {A : Type} (body handler : outcome A)
  : outcome A :=
  match body with
  | Raise NoSuchElementException => handler
  | other => other
  end.

(** [try: body  except Exception: handler] *)
Definition except_Exception {A : Type} (body handler : outcome A)
  : outcome A :=
  match body with
  | Raise e => if is_Exception e then handler else Raise e
  | other => other
  end.

(** ** Records *)

Record record : Type := mkRecord {
  page : Z;
  rank : Z;
  title : str;
  citations : Z
}.

(** Truth value of a string. *)
Definition nonempty (s : str) : bool :=
  match s with
  | [] => false
  | _ => true
  end.

(** ** Extraction of one card *)

(** Step 1 of the loop body: the title. *)
Definition extract_title (card : node) : outcome str :=
  except_NoSuchElement
    (h3 <- find_element sel_heading card ;;
     except_NoSuchElement
       (a <- find_element sel_anchor h3 ;;
        Ret (strip (text_content a)))
       (Ret (strip (text_content h3))))
    (Ret []).

(** The two lookups the source runs in a scope, first by target, then by
    visible text (written out twice in the source, once per scope). An
    element is always true, so [if not cite_link] asks for [None]. *)
Definition find_cite_link (scope : node) : outcome (option node) :=
  cite_link <- except_NoSuchElement
                 (l <- find_element sel_cites_link scope ;; Ret (Some l))
                 (Ret None) ;;
  match cite_link with
  | Some l => Ret (Some l)
  | None =>
      except_NoSuchElement
        (l <- find_element sel_cited_by_text scope ;; Ret (Some l))
        (Ret None)
  end.

(** Step 2 up to [if cite_link:]: which link, if any, carries the count. *)
Definition locate_cite_link (card : element) : outcome (option node) :=
  fl_container <- except_NoSuchElement
                    (c <- find_element sel_toolbar (el_node card) ;;
                     Ret (Some c))
                    (Ret None) ;;
  cite_link <- match fl_container with
               | Some c => find_cite_link c
               | None => Ret None
               end ;;
  match cite_link with
  | Some l => Ret (Some l)
  | None =>
      except_Exception
        (parent <- find_result_block card ;;
         find_cite_link parent)
        (Ret None)
  end.

(** Step 2 of the loop body: the citation count. *)
Definition extract_citations (card : element) : outcome Z :=
  except_Exception
    (cite_link <- locate_cite_link card ;;
     match cite_link with
     | Some l => parse_citations_text (Some (strip (text_content l)))
     | None => Ret 0%Z
     end)
    (Ret 0%Z).

(** The [for card in cards] loop, with its two variables [items] and
    [rank]; [int(citations)] leaves the integer as it is. *)
Fixpoint collect_loop (page_idx : Z) (cards : list element)
    (items : list record) (rank : Z) : outcome (list record) :=
  match cards with
  | [] => Ret items
  | card :: rest =>
      title <- extract_title (el_node card) ;;
      citations <- extract_citations card ;;
      if nonempty title
      then collect_loop page_idx rest
             (items ++ [mkRecord page_idx (rank + 1) title citations])
             (rank + 1)
      else collect_loop page_idx rest items rank
  end.

(** [collect_page_items] on the document the driver shows. *)
Definition page_items (root : node) (page_idx : Z) : outcome (list record) :=
  collect_loop page_idx (driver_find_elements sel_card root) [] 0.

(** ** Aggregation *)

(** A [DataFrame] built from the list of dicts: one row per record, the row
    label being the position. *)
Definition DataFrame := list record.

(** [df.empty] *)
Definition df_empty (df : DataFrame) : bool :=
  match df with
  | [] => true
  | _ => false
  end.

(** A value as a signed 64-bit integer holds it: wrapped around at
    2^63. *)
Definition wrap_int64 (v : Z) : Z :=
  ((v + 2 ^ 63) mod 2 ^ 64 - 2 ^ 63)%Z.

(** [pd.to_numeric(col, errors="coerce").fillna(0).astype(int)] on the
    [citations] column. The column holds Python integers only (the source
    stores [int(citations)]): nothing is coerced to a missing value, and
    [astype(int)] gives numpy's default integer, taken to be 64 bits wide
    (numpy 2, and any platform but Windows before it). Counts below 2^63
    are kept; a count from 2^63 up to 2^64 makes the column unsigned and
    is wrapped around by the cast. A count of 2^64 or more makes pandas
    go through floating point, with a result that depends on the
    platform, or fail: that is outside this model, which wraps such a
    count as well, and no statement below says what becomes of it
    beyond its being a 64-bit integer. *)
Definition coerce_citations (df : DataFrame) : DataFrame :=
  map (fun r =>
         mkRecord (page r) (rank r) (title r) (wrap_int64 (citations r)))
      df.

(** The order of [sort_values(["citations","page","rank"],
    ascending=[False,True,True])]: [key_leb a b] when [a] may stand before
    [b]. *)
Definition key_leb (a b : record) : bool :=
  (citations b <? citations a)%Z
  || ((citations a =? citations b)%Z
      && ((page a <? page b)%Z
          || ((page a =? page b)%Z && (rank a <=? rank b)%Z))).

(** [sort_values] keeps rows of equal keys in their order (a lexsort): an
    insertion sort that puts a row before the rows it may stand before. *)
Fixpoint insert_row (r : record) (sorted : DataFrame) : DataFrame :=
  match sorted with
  | [] => [r]
  | x :: rest => if key_leb r x then r :: sorted else x :: insert_row r rest
  end.

Fixpoint sort_values (df : DataFrame) : DataFrame :=
  match df with
  | [] => []
  | r :: rest => insert_row r (sort_values rest)
  end.

(** Lines 274 to 280 of [run_scrape]; [reset_index(drop=True)] renumbers
    the row labels, which are the positions here. *)
Definition aggregate (results : list record) : DataFrame :=
  let df := results in
  if df_empty df then df
  else sort_values (coerce_citations df).

(** ** The encoding of the query *)

(** UTF-8 of one character; a surrogate cannot be encoded
    ([UnicodeEncodeError], which is a [ValueError]). *)
Definition utf8_encode_char (c : N) : outcome (list N) :=
  if (c <? 0x80)%N then Ret [c]
  else if (c <? 0x800)%N then
    Ret [0xC0 + c / 64; 0x80 + c mod 64]%N
  else if ((0xD800 <=? c) && (c <=? 0xDFFF))%N then Raise ValueError
  else if (c <? 0x10000)%N then
    Ret [0xE0 + c / 4096; 0x80 + (c / 64) mod 64; 0x80 + c mod 64]%N
  else
    Ret [0xF0 + c / 262144; 0x80 + (c / 4096) mod 64;
         0x80 + (c / 64) mod 64; 0x80 + c mod 64]%N.

(** [s.encode("utf-8")] *)
Fixpoint utf8_encode (s : str) : outcome (list N) :=
  match s with
  | [] => Ret []
  | c :: s' =>
      bs <- utf8_encode_char c ;;
      rest <- utf8_encode s' ;;
      Ret (bs ++ rest)
  end.

(** The bytes [quote] never escapes: letters, digits and [_.-~]. *)
Definition always_safe (b : N) : bool :=
  ((65 <=? b) && (b <=? 90) || (97 <=? b) && (b <=? 122)
   || (48 <=? b) && (b <=? 57)
   || (b =? 95) || (b =? 46) || (b =? 45) || (b =? 126))%N.

(** One upper-case hexadecimal digit. *)
Definition hex_digit (n : N) : N :=
  if (n <? 10)%N then (48 + n)%N else (55 + n)%N.

(** A byte as [quote_plus] writes it: itself, a plus for a blank, or a
    percent sign and two hexadecimal digits. *)
Definition quote_byte (b : N) : str :=
  if always_safe b then [b]
  else if (b =? 32)%N then [43%N]
  else [37%N; hex_digit (b / 16); hex_digit (b mod 16)].

(** [urllib.parse.quote_plus(query)] *)
Definition quote_plus (query : str) : outcome str :=
  bs <- utf8_encode query ;;
  Ret (flat_map quote_byte bs).

(** ** The addresses asked for *)

(** The last decimal digit of a number, as a character. *)
Definition digit_char (d : Z) : N := Z.to_N (48 + d mod 10).

(** The digits of a number that is not negative, most significant
    first. *)
Fixpoint dec_digits (fuel : nat) (n : Z) (acc : str) : str :=
  match fuel with
  | O => acc
  | S fuel' =>
      if (n <? 10)%Z then digit_char n :: acc
      else dec_digits fuel' (n / 10) (digit_char n :: acc)
  end.

(** The decimal notation of an integer. *)
Definition int_to_str (z : Z) : str :=
  let fuel := S (Z.to_nat (Z.log2 (Z.abs z))) in
  if (z <? 0)%Z then 45%N :: dec_digits fuel (- z) []
  else dec_digits fuel z [].

(** An integer in an f-string: its notation, or the [ValueError] of a
    number of more digits (the sign apart) than the interpreter writes
    out. *)
Definition format_int (z : Z) : outcome str :=
  let s := int_to_str z in
  let digits := if (z <? 0)%Z then tl s else s in
  if (int_max_str_digits <? Z.of_nat (List.length digits))%Z
  then Raise ValueError
  else Ret s.

(** [URL_TEMPLATE.format(query=encoded)] of [open_with_query], with the
    encoding of the query before it. *)
Definition search_url (query : str) : outcome str :=
  encoded <- quote_plus query ;;
  Ret (u "https://scholar.google.co.kr/scholar?hl=ko&as_sdt=0%2C5&q="
       ++ encoded ++ u "&btnG=").

(** The address of [go_to_page]: the offset, the encoding of the query
    and the f-string. *)
Definition offset_url (query : str) (page_index : Z) : outcome str :=
  let start := ((page_index - 1) * 10)%Z in
  encoded <- quote_plus query ;;
  digits <- format_int start ;;
  Ret (u "https://scholar.google.co.kr/scholar?start=" ++ digits
       ++ u "&q=" ++ encoded ++ u "&hl=ko&as_sdt=0,5").

(** ** The browser session *)

(** What the driver shows: the serialized source and the document tree. *)
Record webpage : Type := mkPage {
  page_source : str;
  document : node
}.

(** The three ways the source asks the site for a page: the search URL of
    [URL_TEMPLATE], the offset URL of [go_to_page], and the query typed
    into the box named [q] followed by ENTER. *)
Inductive request : Type :=
| ReqSearch (query : str)
| ReqOffset (start : Z) (query : str)
| ReqSubmit (query : str).

Inductive response : Type :=
| Loads (p : webpage)
| Fails.

(** The outside of the program during one run. *)
Record site : Type := mkSite {
  respond : request -> response;
  quit_fails : bool
}.

Inductive event : Type :=
| EvLoaded (p : webpage)
| EvCaptchaWarning
| EvScroll
| EvExtract (page_idx : Z)
| EvQuit.

(** A function registered with [atexit]; [_safe_quit] of [build_driver]
    is the only one the source registers. *)
Inductive exit_hook : Type :=
| SafeQuit.

(** The state of a session: the site, the page the driver shows, what
    has happened so far, and the functions registered with [atexit]. *)
Record world : Type := mkWorld {
  the_site : site;
  current : webpage;
  log : list event;
  at_exit : list exit_hook
}.

Definition emit (e : event) (w : world) : world :=
  mkWorld (the_site w) (current w) (log w ++ [e]) (at_exit w).

Definition show (p : webpage) (w : world) : world :=
  mkWorld (the_site w) p (log w ++ [EvLoaded p]) (at_exit w).

(** Code that drives the browser. *)
Definition M (A : Type) : Type := world -> outcome A * world.

Definition ret {A : Type} (a : A) : M A := fun w => (Ret a, w).

Definition mbind {A B : Type} (m : M A) (f : A -> M B) : M B :=
  fun w =>
    match m w with
    | (Ret a, w') => f a w'
    | (Raise e, w') => (Raise e, w')
    end.

Notation "x <~ m ;; k" := (mbind m (fun x => k))
  (at level 61, m at next level, right associativity).
Notation "m ;;; k" := (mbind m (fun _ => k))
  (at level 61, right associativity).

(** [try: body  except Exception: handler] *)
Definition try_except_Exception {A : Type} (body handler : M A) : M A :=
  fun w =>
    match body w with
    | (Raise e, w') => if is_Exception e then handler w' else (Raise e, w')
    | other => other
    end.

(** [try: body  finally: cleanup] *)
Definition try_finally {A : Type} (body : M A) (cleanup : M unit) : M A :=
  fun w =>
    match body w with
    | (o, w') =>
        match cleanup w' with
        | (Ret _, w'') => (o, w'')
        | (Raise e, w'') => (Raise e, w'')
        end
    end.

Definition lift {A : Type} (o : outcome A) : M A := fun w => (o, w).

(** The page a fresh browser shows. *)
Definition about_blank : webpage :=
  mkPage (u "<html><head></head><body></body></html>")
         (Elem (u "html") []
            [Elem (u "head") [] []; Elem (u "body") [] []]).

(** [build_driver]: the session starts on a blank page, and [_safe_quit]
    is registered with [atexit]. The browser is taken to start: a failure
    of [uc.Chrome] is raised before the [try] of [run_scrape], when there
    is no session to release. The options play no part. *)
Definition build_driver (s : site) : world :=
  mkWorld s about_blank [] [SafeQuit].

(** [driver.get(url)] and the ENTER key in the search box. *)
Definition navigate (r : request) : M unit :=
  fun w =>
    match respond (the_site w) r with
    | Loads p => (Ret tt, show p w)
    | Fails => (Raise WebDriverException, w)
    end.

(** [WebDriverWait(driver, 15).until(cond)] on the page as it stands. *)
Definition wait_until (cond : node -> bool) : M unit :=
  fun w =>
    if cond (document (current w)) then (Ret tt, w)
    else (Raise TimeoutException, w).

(** [EC.presence_of_element_located] *)
Definition present (sel : node -> bool) (root : node) : bool :=
  match driver_find_elements sel root with
  | [] => false
  | _ => true
  end.

(** [driver.quit()] *)
Definition driver_quit : M unit :=
  fun w =>
    if quit_fails (the_site w) then (Raise WebDriverException, emit EvQuit w)
    else (Ret tt, emit EvQuit w).

(** ** Challenge gate and navigation *)

Definition hints : list str :=
  [ u "captcha"; u "로봇이"; u "자동화"; u "보안";
    u "verify you are a human"; u "i'm not a robot"; u "문자를 입력" ].

(** The test of [wait_if_captcha] on a page. *)
Definition challenged (p : webpage) : bool :=
  let lower := lower (page_source p) in
  existsb (fun h => contains lower h) hints.

(** [st.warning(...)] then [st.stop()], which raises [StopException]. *)
Definition wait_if_captcha (prompt_on_streamlit : bool) : M bool :=
  fun w =>
    if challenged (current w) then
      if prompt_on_streamlit
      then (Raise StopException, emit EvCaptchaWarning w)
      else (Ret true, w)
    else (Ret false, w).

(** [open_with_query]. The address is built first; a request stands for
    the address the driver is sent to, or for the keys sent to the
    box. *)
Definition open_with_query (query : str) : M unit :=
  url <~ lift (search_url query) ;;
  navigate (ReqSearch query) ;;;
  wait_if_captcha true ;;;
  wait_until (fun d => present sel_query_box d || present sel_card d) ;;;
  try_except_Exception
    (fun w =>
       (box <~ lift (driver_find_element sel_query_box
                       (document (current w))) ;;
        navigate (ReqSubmit query) ;;;
        wait_if_captcha true ;;;
        wait_until (present sel_card)) w)
    (ret tt).

Fixpoint repeat_M (n : nat) (m : M unit) : M unit :=
  match n with
  | O => ret tt
  | S n' => m ;;; repeat_M n' m
  end.

(** [for _ in range(times)]: scroll, then pause. The script is taken to
    run: the browser stays up between the start and [quit]. *)
Definition scroll_page (times : Z) : M unit :=
  repeat_M (Z.to_nat times) (fun w => (Ret tt, emit EvScroll w)).

(** [go_to_page]: the address is built first. *)
Definition go_to_page (query : str) (page_index : Z) : M unit :=
  let start := ((page_index - 1) * 10)%Z in
  url <~ lift (offset_url query page_index) ;;
  navigate (ReqOffset start query) ;;;
  wait_if_captcha true ;;;
  wait_until (present sel_card).

(** [collect_page_items(driver, page_idx)] *)
Definition collect_page_items (page_idx : Z) : M (list record) :=
  fun w =>
    (page_items (document (current w)) page_idx, emit (EvExtract page_idx) w).

(** [range(lo, hi)] *)
Definition py_range (lo hi : Z) : list Z :=
  map (fun i => (lo + Z.of_nat i)%Z) (seq 0 (Z.to_nat (hi - lo))).

(** The [for p in range(2, total_pages + 1)] loop over [results]. *)
Fixpoint visit_pages (query : str) (scroll_count : Z) (ps : list Z)
    (results : list record) : M (list record) :=
  match ps with
  | [] => ret results
  | p :: rest =>
      go_to_page query p ;;;
      scroll_page scroll_count ;;;
      items <~ collect_page_items p ;;
      visit_pages query scroll_count rest (results ++ items)
  end.

(** The body of the [try] of [run_scrape] up to the data frame. *)
Definition traverse (query : str) (total_pages scroll_count : Z)
  : M (list record) :=
  open_with_query query ;;;
  scroll_page scroll_count ;;;
  first <~ collect_page_items 1 ;;
  visit_pages query scroll_count (py_range 2 (total_pages + 1)) ([] ++ first).

(** The [finally] of [run_scrape]. *)
Definition release : M unit :=
  try_except_Exception driver_quit (ret tt).

(** The whole [try] block of [run_scrape]. *)
Definition pipeline (query : str) (total_pages scroll_count : Z)
  : M DataFrame :=
  results <~ traverse query total_pages scroll_count ;;
  ret (aggregate results).

Definition run_scrape (s : site) (query : str) (total_pages scroll_count : Z)
  : outcome DataFrame * world :=
  try_finally (pipeline query total_pages scroll_count) release
    (build_driver s).

(** ** Export *)

(** What [datetime.now()] returns (years 1 to 9999). *)
Record datetime : Type := mkDatetime {
  year : Z;
  month : Z;
  day : Z;
  hour : Z;
  minute : Z;
  second : Z
}.

Definition pad2 (n : Z) : str := [digit_char (n / 10); digit_char n].

Definition pad4 (n : Z) : str :=
  [digit_char (n / 1000); digit_char (n / 100); digit_char (n / 10);
   digit_char n].

(** [strftime("%Y%m%d_%H%M%S")] *)
Definition strftime_stamp (t : datetime) : str :=
  pad4 (year t) ++ pad2 (month t) ++ pad2 (day t) ++ u "_"
  ++ pad2 (hour t) ++ pad2 (minute t) ++ pad2 (second t).

(** The character class of the pattern of [re.sub]: backslash, slash,
    colon, star, question mark, double quote, the angle brackets and the
    bar. *)
Definition unsafe_chars : list N := [92; 47; 58; 42; 63; 34; 60; 62; 124]%N.

Definition is_unsafe (c : N) : bool := existsb (N.eqb c) unsafe_chars.

(** [re.sub(pattern, "_", query)] *)
Definition sanitize (query : str) : str :=
  map (fun c => if is_unsafe c then 95%N else c) query.

(** The [file_name] of [df_to_excel_bytes]. *)
Definition export_file_name (now : datetime) (query : str) : str :=
  let ts := strftime_stamp now in
  let safe_query := sanitize query in
  u "scholar_results_" ++ safe_query ++ u "_" ++ ts ++ u ".xlsx".

(** Python values, as far as the export and its caller need them. *)
Inductive pyval : Type :=
| PyInt (z : Z)
| PyStr (s : str)
| PyBytes (b : list N)
| PyTuple (items : list pyval).

(** [isinstance(v, bytes)] *)
Definition is_bytes (v : pyval) : bool :=
  match v with
  | PyBytes _ => true
  | _ => false
  end.

(** The items an unpacking assignment iterates over. *)
Definition py_iter (v : pyval) : outcome (list pyval) :=
  match v with
  | PyTuple items => Ret items
  | PyStr s => Ret (map (fun c => PyStr [c]) s)
  | PyBytes b => Ret (map (fun x => PyInt (Z.of_N x)) b)
  | PyInt _ => Raise ValueError
  end.

(** [a, b = v] *)
Definition unpack2 (v : pyval) : outcome (pyval * pyval) :=
  items <- py_iter v ;;
  match items with
  | [a; b] => Ret (a, b)
  | _ => Raise ValueError
  end.

Section TableExport.

(** The clock and the spreadsheet writer ([pd.ExcelWriter] with
    [openpyxl], then [bio.read()]) are given. *)
Variable now : datetime.
Variable to_excel : DataFrame -> list N.

(** The source annotates the result as [bytes]; the value returned is
    the tuple of the [return] statement. *)
Definition df_to_excel_bytes (df : DataFrame) (query : str) : pyval :=
  let file_name := export_file_name now query in
  PyTuple [PyStr file_name; PyBytes (to_excel df)].

(** ** The page script, from [if run_btn:] on *)

Inductive ui_event : Type :=
| UiError
| UiNoResults
| UiSuccess (n : nat)
| UiPreview (df : DataFrame)
| UiDownload (data file_name : pyval) (mime : str)
| UiInfo.

Definition xlsx_mime : str :=
  u "application/vnd.openxmlformats-officedocument.spreadsheetml.sheet".

(** The [else] branch under [df_sorted.empty]. *)
Definition show_results (df_sorted : DataFrame) (query : str)
  : outcome unit * list ui_event :=
  let shown := [UiSuccess (List.length df_sorted); UiPreview df_sorted] in
  match unpack2 (df_to_excel_bytes df_sorted query) with
  | Ret (fname, xbytes) =>
      (Ret tt, shown ++ [UiDownload xbytes fname xlsx_mime; UiInfo])
  | Raise e => (Raise e, shown)
  end.

(** One press of the start button: the outcome of the script, what the
    script itself put on the page, and the trace of the run, which holds
    the warning of the challenge gate ([displayed] below puts the two
    together). The progress bar is left out, and the spreadsheet writer
    is taken to return its bytes. *)
Definition on_run_button (s : site) (query : str)
    (total_pages scroll_count : Z)
  : outcome unit * list ui_event * list event :=
  if negb (nonempty (strip query))
  then (Raise StopException, [UiError], [])
  else
    match run_scrape s query total_pages scroll_count with
    | (Ret df_sorted, w) =>
        if df_empty df_sorted then (Ret tt, [UiNoResults], log w)
        else
          match show_results df_sorted query with
          | (Raise e, shown) =>
              if is_Exception e then (Ret tt, shown ++ [UiError], log w)
              else (Raise e, shown, log w)
          | (Ret _, shown) => (Ret tt, shown, log w)
          end
    | (Raise e, w) =>
        if is_Exception e then (Ret tt, [UiError], log w)
        else (Raise e, [], log w)
    end.

End TableExport.

(** What the page shows after a press of the button. *)
Inductive shown : Type :=
| ShowCaptchaWarning
| ShowUi (e : ui_event).

(** The warnings of the challenge gate in a trace. *)
Definition warnings (ev : list event) : list shown :=
  flat_map (fun e => match e with
                     | EvCaptchaWarning => [ShowCaptchaWarning]
                     | _ => []
                     end) ev.

(** The warnings come during the run, before anything the page script
    writes after it. *)
Definition displayed (r : outcome unit * list ui_event * list event)
  : list shown :=
  warnings (snd r) ++ map ShowUi (snd (fst r)).

(** ** Reference notions used by the statements *)

(** The number a run of decimal digits denotes, most significant first. *)
Fixpoint run_value (run : str) : Z :=
  match run with
  | [] => 0
  | c :: r =>
      (match digit_value c with Some d => d | None => 0 end)
      * 10 ^ Z.of_nat (List.length r) + run_value r
  end.

Definition all_digits (s : str) : Prop :=
  Forall (fun c => is_digit c = true) s.

Definition no_digit (s : str) : Prop :=
  Forall (fun c => is_digit c = false) s.


(** [a] has to stand before [b]: more citations, or as many and an
    earlier page, or as many on the same page and a smaller rank. *)
Definition stands_before (a b : record) : Prop :=
  (citations a > citations b)%Z
  \/ (citations a = citations b /\ (page a < page b)%Z)
  \/ (citations a = citations b /\ page a = page b /\ (rank a < rank b)%Z).

(** A value a signed 64-bit integer holds, and a row whose count is
    one. *)
Definition fits_int64 (v : Z) : Prop := (- 2 ^ 63 <= v < 2 ^ 63)%Z.

Definition fits_row (r : record) : Prop := fits_int64 (citations r).

(** What a record holds beside its count. *)
Definition entry (r : record) : Z * Z * str := (page r, rank r, title r).

(** Every pair of rows of [out] is in that order. *)
Definition ordered (out : DataFrame) : Prop :=
  forall i j a b,
    nth_error out i = Some a -> nth_error out j = Some b ->
    stands_before a b -> (i < j)%nat.

(** The title and the count the loop body finds for a card. *)
Definition card_title (card : element) : str :=
  match extract_title (el_node card) with
  | Ret t => t
  | Raise _ => []
  end.

Definition card_citations (card : element) : Z :=
  match extract_citations card with
  | Ret c => c
  | Raise _ => 0%Z
  end.

(** The cards that yield a title. *)
Definition titled_cards (root : node) : list element :=
  filter (fun c => nonempty (card_title c))
         (driver_find_elements sel_card root).

(** [1; 2; ...; k] *)
Definition one_to (k : nat) : list Z := map Z.of_nat (seq 1 k).

(** A lookup as an option. *)
Definition found (sel : node -> bool) (scope : node) : option node :=
  match find_element sel scope with
  | Ret m => Some m
  | Raise _ => None
  end.

Definition or_else {A : Type} (a b : option A) : option A :=
  match a with
  | Some _ => a
  | None => b
  end.

(** The two lookups in one scope, as an option. *)
Definition link_in (scope : node) : option node :=
  or_else (found sel_cites_link scope) (found sel_cited_by_text scope).

(** How often the session was released. *)
Definition is_quit (e : event) : bool :=
  match e with
  | EvQuit => true
  | _ => false
  end.

Definition count_quit (ev : list event) : nat :=
  List.length (filter is_quit ev).

(** [key_leb] as a relation. *)
Definition key_le (a b : record) : Prop := key_leb a b = true.

(** The records the loop adds for the cards that yield a title, numbered
    from [rank + 1]. *)
Fixpoint numbered (page_idx rank : Z) (cards : list element) : list record :=
  match cards with
  | [] => []
  | c :: cs =>
      mkRecord page_idx (rank + 1) (card_title c) (card_citations c)
        :: numbered page_idx (rank + 1) cs
  end.

(** No page of [ev] shows a challenge. *)
Definition clean (ev : list event) : Prop :=
  forall p, In (EvLoaded p) ev -> challenged p = false.

(** No page of [ev] shows a challenge and no warning is given. *)
Definition calm (ev : list event) : Prop :=
  clean ev /\ ~ In EvCaptchaWarning ev.

(** What a piece of the traversal does to the log: it appends events,
    never a release; either no loaded page shows a challenge, no warning
    is given and the piece does not stop the script, or the last page
    loaded shows one, the warning follows at once and the script is
    stopped. *)
Definition gated {A : Type} (m : M A) : Prop :=
  forall w, exists ev,
    log (snd (m w)) = log w ++ ev
    /\ ~ In EvQuit ev
    /\ ((calm ev /\ fst (m w) <> Raise StopException)
        \/ (exists ev0 pg,
              ev = ev0 ++ [EvLoaded pg; EvCaptchaWarning]
              /\ calm ev0 /\ challenged pg = true
              /\ fst (m w) = Raise StopException)).

(** A piece of code that leaves the site and the registered functions
    as they are. *)
Definition steady {A : Type} (m : M A) : Prop :=
  forall w,
    the_site (snd (m w)) = the_site w /\ at_exit (snd (m w)) = at_exit w.

(** ** Sample documents *)

Definition el (tag cls : string) (kids : list node) : node :=
  Elem (u tag) [(u "class", u cls)] kids.

Definition anchor (href text : string) : node :=
  Elem (u "a") [(u "href", u href)] [Text (u text)].

Definition search_box : node :=
  Elem (u "input") [(u "name", u "q")] [].

(** A result block as the site renders it: the card [div.gs_ri] with its
    heading and its toolbar. *)
Definition result_block (title cited : string) : node :=
  el "div" "gs_r gs_or gs_scl"
    [ el "div" "gs_ri"
        [ el "h3" "gs_rt" [anchor "/paper" title];
          el "div" "gs_fl gs_flb"
            [ anchor "/scholar?q=related" "Related articles";
              anchor "/scholar?cites=42" cited ] ] ].

Definition results_page (blocks : list node) : webpage :=
  mkPage (u "<html><body>results</body></html>")
         (Elem (u "html") []
            [Elem (u "body") [] (search_box :: blocks)]).

Definition sample_page1 : webpage :=
  results_page [ result_block "Alpha" "Cited by 5";
                 result_block "Beta" "20회 인용" ].

Definition sample_page2 : webpage :=
  results_page [ result_block "Gamma" "Cited by 20" ].

(** A site of two result pages. *)
Definition sample_site : site :=
  mkSite (fun r =>
            match r with
            | ReqSearch _ => Loads sample_page1
            | ReqSubmit _ => Loads sample_page1
            | ReqOffset start _ =>
                if (start =? 10)%Z then Loads sample_page2 else Fails
            end)
         false.

(** A result block whose citation link lies beside the card, not inside
    it. *)
Definition stray_link_block : node :=
  el "div" "gs_r gs_or gs_scl"
    [ el "div" "gs_ri" [ el "h3" "gs_rt" [anchor "/paper" "Paper"] ];
      el "div" "gs_fl" [ anchor "/scholar?cites=99" "Cited by 7" ] ].

Definition stray_link_page : webpage := results_page [stray_link_block].

(** A card inside a card: the inner one holds the toolbar. *)
Definition nested_block : node :=
  el "div" "gs_r gs_or gs_scl"
    [ el "div" "gs_ri"
        [ el "h3" "gs_rt" [anchor "/outer" "Outer"];
          el "div" "gs_ri"
            [ el "h3" "gs_rt" [anchor "/inner" "Inner"];
              el "div" "gs_fl gs_flb"
                [ anchor "/scholar?cites=7" "Cited by 9" ] ] ] ].

Definition nested_page : webpage := results_page [nested_block].

(** The card of that page, as the driver hands it out. *)
Definition stray_card : element :=
  hd (mkElement (Text []) [])
     (driver_find_elements sel_card (document stray_link_page)).



(** A site that answers the search and nothing else. *)
Definition one_page_site : site :=
  mkSite (fun r =>
            match r with
            | ReqSearch _ => Loads sample_page1
            | _ => Fails
            end)
         false.

(** A query that has no encoding: one half of a surrogate pair. *)
Definition lone_surrogate : str := [0xD800%N].

(** A page with a search box and no result at all. *)
Definition no_results_page : webpage := results_page [].

(** A site that has nothing for the query. *)
Definition barren_site : site :=
  mkSite (fun _ => Loads no_results_page) false.

(** A page whose only card has no heading. *)
Definition untitled_page : webpage :=
  results_page
    [ el "div" "gs_r gs_or gs_scl"
        [ el "div" "gs_ri" [ el "div" "gs_rs" [Text (u "snippet")] ] ] ].

Definition untitled_site : site :=
  mkSite (fun _ => Loads untitled_page) true.

(** A page that asks for a human. *)
Definition challenge_page : webpage :=
  mkPage (u "<html><body>Please solve the reCAPTCHA</body></html>")
         (Elem (u "html") [] [Elem (u "body") [] [Text (u "reCAPTCHA")]]).

(** Two pages of results, then the challenge. *)
Definition challenging_site : site :=
  mkSite (fun r =>
            match r with
            | ReqSearch _ => Loads sample_page1
            | ReqSubmit _ => Loads sample_page1
            | ReqOffset start _ =>
                if (start =? 10)%Z then Loads sample_page2
                else Loads challenge_page
            end)
         false.

(** ** Further notions *)

(** Induction over a document tree, with the property at every child. *)
Fixpoint node_tree_ind (P : node -> Prop)
    (HE : forall tag attrs kids, Forall P kids -> P (Elem tag attrs kids))
    (HT : forall data, P (Text data)) (n : node) : P n :=
  match n with
  | Elem tag attrs kids =>
      HE tag attrs kids
         ((fix all (ks : list node) : Forall P ks :=
             match ks with
             | [] => Forall_nil P
             | k :: ks' =>
                 Forall_cons k (node_tree_ind HE HT k) (all ks')
             end) kids)
  | Text data => HT data
  end.

(** The first card of the first sample page. *)
Definition sample_card : element :=
  hd (mkElement (Text []) [])
     (driver_find_elements sel_card (document sample_page1)).

(** The scrolls and the extractions of a trace. *)
Definition is_work (e : event) : bool :=
  match e with
  | EvScroll => true
  | EvExtract _ => true
  | _ => false
  end.

Definition work (ev : list event) : list event := filter is_work ev.

(** The page numbers a run asks for, in order. *)
Definition pages_of (total_pages : Z) : list Z :=
  1%Z :: py_range 2 (total_pages + 1).

(** What a run does on a page once it is loaded. *)
Definition page_work (scroll_count p : Z) : list event :=
  repeat EvScroll (Z.to_nat scroll_count) ++ [EvExtract p].

(** The page and the rank of a record. *)
Definition place (r : record) : Z * Z := (page r, rank r).

(** The records of page [p] of some document. *)
Definition block_of (p : Z) (items : list record) : Prop :=
  exists root, items = numbered p 0 (titled_cards root).


(** ** The characters of an address *)

(** The characters an encoded query is made of. *)
Definition url_safe (c : N) : bool :=
  always_safe c || (c =? 43)%N || (c =? 37)%N.

(** A code point of a Python string. *)
Definition is_code_point (c : N) : Prop := (c <= 0x10FFFF)%N.

Definition is_surrogate (c : N) : bool :=
  ((0xD800 <=? c) && (c <=? 0xDFFF))%N.

(** ** The exit hook *)

(** [_safe_quit], which [build_driver] registers with [atexit]: [alive]
    tells whether the weak reference still yields the driver. *)
Definition safe_quit (alive : bool) : M unit :=
  if alive then try_except_Exception driver_quit (ret tt)
  else ret tt.

Definition call_hook (alive : bool) (h : exit_hook) : M unit :=
  match h with
  | SafeQuit => safe_quit alive
  end.

(** The exit of the interpreter: the registered functions are called,
    the last registered first; an exception of one of them is printed
    and the next is called. *)
Fixpoint call_hooks (alive : bool) (hs : list exit_hook) : M unit :=
  match hs with
  | [] => ret tt
  | h :: hs' =>
      try_except_Exception (call_hook alive h) (ret tt) ;;;
      call_hooks alive hs'
  end.

Definition interpreter_exit (alive : bool) : M unit :=
  fun w => call_hooks alive (rev (at_exit w)) w.

(** A date and time whose stamp has the fixed width (the year is written
    with four digits from 1000 on). *)
Definition four_digit_time (t : datetime) : Prop :=
  (1000 <= year t <= 9999 /\ 1 <= month t <= 12 /\ 1 <= day t <= 31
   /\ 0 <= hour t <= 23 /\ 0 <= minute t <= 59 /\ 0 <= second t <= 59)%Z.

(** * Properties *)

(** ** The citation parser *)

Lemma digit_in_range zeros c d :
  digit_in zeros c = Some d -> (0 <= d <= 9)%Z.
Proof.
  induction zeros as [|z zs IH]; simpl; [discriminate|].
  destruct ((z <=? c) && (c <? z + 10))%N eqn:E; [|exact IH].
  intros H; injection H as <-.
  apply andb_true_iff in E as [E1 E2].
  apply N.leb_le in E1. apply N.ltb_lt in E2. lia.
Qed.

Lemma digit_value_range c d : digit_value c = Some d -> (0 <= d <= 9)%Z.
Proof. apply digit_in_range. Qed.

Lemma is_digit_value c : is_digit c = true -> exists d, digit_value c = Some d.
Proof.
  unfold is_digit. destruct (digit_value c) as [d|]; [eauto|discriminate].
Qed.

Lemma run_value_nonneg run : (0 <= run_value run)%Z.
Proof.
  induction run as [|c r IH]; cbn [run_value]; [lia|].
  destruct (digit_value c) as [d|] eqn:E.
  - apply digit_value_range in E.
    assert (0 <= 10 ^ Z.of_nat (List.length r))%Z by (apply Z.pow_nonneg; lia).
    nia.
  - lia.
Qed.

Lemma int_digits_value run :
  all_digits run ->
  forall acc,
    int_digits acc run
    = Ret (acc * 10 ^ Z.of_nat (List.length run) + run_value run)%Z.
Proof.
  induction 1 as [|c r Hc _ IH]; intros acc;
    cbn [int_digits run_value List.length].
  - f_equal. simpl. lia.
  - destruct (is_digit_value c Hc) as [d Hd]. rewrite Hd, IH. f_equal.
    rewrite Nat2Z.inj_succ, Z.pow_succ_r by lia. ring.
Qed.

Lemma py_int_value run :
  run <> [] -> all_digits run ->
  (Z.of_nat (List.length run) <= int_max_str_digits)%Z ->
  py_int run = Ret (run_value run).
Proof.
  intros Hne Hall Hlen. destruct run as [|c r]; [congruence|].
  unfold py_int.
  destruct (Z.ltb_spec int_max_str_digits (Z.of_nat (List.length (c :: r))));
    [lia|].
  rewrite int_digits_value by assumption. reflexivity.
Qed.

Lemma py_int_long run :
  (int_max_str_digits < Z.of_nat (List.length run))%Z ->
  py_int run = Raise ValueError.
Proof.
  intros Hlen. destruct run as [|c r]; [reflexivity|].
  unfold py_int.
  destruct (Z.ltb_spec int_max_str_digits (Z.of_nat (List.length (c :: r))));
    [reflexivity|lia].
Qed.

(** [int()] on a run of digits gives its value or refuses its length. *)
Lemma py_int_cases run :
  run <> [] -> all_digits run ->
  (py_int run = Ret (run_value run) /\ (0 <= run_value run)%Z)
  \/ py_int run = Raise ValueError.
Proof.
  intros Hne Hall.
  destruct (Z.le_gt_cases (Z.of_nat (List.length run)) int_max_str_digits)
    as [Hlen|Hlen].
  - left. split; [now apply py_int_value|apply run_value_nonneg].
  - right. now apply py_int_long.
Qed.

Lemma take_digits_all s : all_digits (take_digits s).
Proof.
  induction s as [|c s IH]; simpl; [constructor|].
  destruct (is_digit c) eqn:E; constructor; assumption.
Qed.


Lemma re_search_digits_none t : no_digit t -> re_search_digits t = None.
Proof.
  induction 1 as [|c t Hc _ IH]; simpl; [reflexivity|]. now rewrite Hc.
Qed.


Lemma re_search_digits_group t g :
  re_search_digits t = Some g -> g <> [] /\ all_digits g.
Proof.
  induction t as [|c t IH]; simpl; [discriminate|].
  destruct (is_digit c) eqn:E; [|exact IH].
  intros H; injection H as <-. split; [discriminate|].
  constructor; [assumption|apply take_digits_all].
Qed.

(** The parser returns a number that is not negative, or raises the
    [ValueError] of [int()]. *)
Lemma parse_citations_text_total text :
  (exists n, parse_citations_text text = Ret n /\ (0 <= n)%Z)
  \/ parse_citations_text text = Raise ValueError.
Proof.
  destruct text as [[|c t]|]; cbn [parse_citations_text];
    try (left; exists 0%Z; split; [reflexivity|lia]).
  destruct (re_search_digits (c :: t)) as [g|] eqn:Hg.
  - destruct (re_search_digits_group _ Hg) as [Hne Hall].
    destruct (py_int_cases Hne Hall) as [[-> Hn]| ->]; [left|right]; eauto.
  - left. exists 0%Z; split; [reflexivity|lia].
Qed.




(** ** The aggregation sort *)

Lemma key_leb_total a b : key_leb a b = false -> key_leb b a = true.
Proof. unfold key_leb. lia. Qed.

Lemma key_leb_trans a b c :
  key_leb a b = true -> key_leb b c = true -> key_leb a c = true.
Proof. unfold key_leb. lia. Qed.

Lemma stands_before_not_leb a b : stands_before a b -> key_leb b a = false.
Proof. unfold stands_before, key_leb. lia. Qed.

Lemma wrap_int64_fits v : fits_int64 (wrap_int64 v).
Proof.
  unfold fits_int64, wrap_int64.
  pose proof (Z.mod_pos_bound (v + 2 ^ 63) (2 ^ 64) ltac:(lia)). lia.
Qed.

Lemma wrap_int64_id v : fits_int64 v -> wrap_int64 v = v.
Proof.
  unfold fits_int64, wrap_int64. intros H.
  rewrite Z.mod_small by lia. lia.
Qed.

(** A count from 2^63 up to 2^64 comes out 2^64 smaller. *)
Lemma wrap_int64_high v :
  (2 ^ 63 <= v < 2 ^ 64)%Z -> wrap_int64 v = (v - 2 ^ 64)%Z.
Proof.
  unfold wrap_int64. intros H.
  replace (v + 2 ^ 63)%Z with ((v - 2 ^ 63) + 1 * 2 ^ 64)%Z by lia.
  rewrite Z.mod_add by lia. rewrite Z.mod_small by lia. lia.
Qed.

Lemma coerce_citations_fits df : Forall fits_row (coerce_citations df).
Proof.
  unfold coerce_citations. apply Forall_forall. intros r Hr.
  apply in_map_iff in Hr as (r0 & <- & _). apply wrap_int64_fits.
Qed.

Lemma coerce_citations_id df :
  Forall fits_row df -> coerce_citations df = df.
Proof.
  unfold coerce_citations.
  induction 1 as [|[p r t c] df Hc _ IH]; cbn [map]; [reflexivity|].
  rewrite IH. cbn [page rank title citations]. unfold fits_row in Hc.
  cbn [citations] in Hc. now rewrite (wrap_int64_id Hc).
Qed.

(** The coercion touches the count only. *)
Lemma coerce_citations_entry df :
  map entry (coerce_citations df) = map entry df.
Proof.
  unfold coerce_citations. rewrite map_map. reflexivity.
Qed.

Lemma insert_row_perm r df : Permutation (r :: df) (insert_row r df).
Proof.
  induction df as [|x df IH]; simpl; [reflexivity|].
  destruct (key_leb r x); [reflexivity|].
  rewrite perm_swap. now constructor.
Qed.

Lemma sort_values_perm df : Permutation df (sort_values df).
Proof.
  induction df as [|r df IH]; simpl; [constructor|].
  rewrite <- insert_row_perm. now constructor.
Qed.

Lemma insert_row_sorted r df :
  StronglySorted key_le df -> StronglySorted key_le (insert_row r df).
Proof.
  induction 1 as [|x df Hs IH Hx]; simpl.
  - repeat constructor.
  - destruct (key_leb r x) eqn:E.
    + constructor; [now constructor|].
      constructor; [exact E|].
      eapply Forall_impl; [|exact Hx].
      intros y Hy. eapply key_leb_trans; eassumption.
    + constructor; [exact IH|].
      eapply Permutation_Forall; [apply insert_row_perm|].
      constructor; [now apply key_leb_total|exact Hx].
Qed.

Lemma sort_values_sorted df : StronglySorted key_le (sort_values df).
Proof.
  induction df as [|r df IH]; simpl; [constructor|].
  now apply insert_row_sorted.
Qed.

Lemma sort_values_fixed df :
  StronglySorted key_le df -> sort_values df = df.
Proof.
  induction 1 as [|x df Hs IH Hx]; simpl; [reflexivity|].
  rewrite IH. destruct df as [|y df]; simpl; [reflexivity|].
  inversion Hx as [|? ? Hxy _]; subst. unfold key_le in Hxy.
  now rewrite Hxy.
Qed.

Lemma sorted_nth df :
  StronglySorted key_le df ->
  forall i j a b,
    (i < j)%nat -> nth_error df i = Some a -> nth_error df j = Some b ->
    key_leb a b = true.
Proof.
  induction 1 as [|x df Hs IH Hx]; intros i j a b Hij Ha Hb.
  - destruct i; discriminate.
  - destruct j as [|j]; [lia|]. simpl in Hb.
    destruct i as [|i]; simpl in Ha.
    + injection Ha as <-. rewrite Forall_forall in Hx.
      apply Hx. eapply nth_error_In; eassumption.
    + eapply (IH i j); [lia|eassumption|eassumption].
Qed.

Lemma sorted_ordered df : StronglySorted key_le df -> ordered df.
Proof.
  intros Hs i j a b Ha Hb Hab.
  apply stands_before_not_leb in Hab.
  destruct (Nat.lt_trichotomy i j) as [Hlt|[Heq|Hgt]]; [exact Hlt| |].
  - subst j. rewrite Ha in Hb. injection Hb as <-.
    unfold key_leb in Hab. lia.
  - rewrite (sorted_nth Hs Hgt Hb Ha) in Hab. discriminate.
Qed.

Lemma aggregate_sorted results : StronglySorted key_le (aggregate results).
Proof.
  unfold aggregate. destruct (df_empty results) eqn:E.
  - destruct results; [constructor|discriminate].
  - apply sort_values_sorted.
Qed.

Lemma aggregate_perm results :
  Permutation (coerce_citations results) (aggregate results).
Proof.
  unfold aggregate. destruct results as [|r results]; [reflexivity|].
  cbn [df_empty]. apply sort_values_perm.
Qed.

Lemma aggregate_fits results : Forall fits_row (aggregate results).
Proof.
  eapply Permutation_Forall; [apply aggregate_perm|].
  apply coerce_citations_fits.
Qed.

Lemma aggregate_places results :
  Permutation (map place results) (map place (aggregate results)).
Proof.
  replace (map place results) with (map place (coerce_citations results))
    by (unfold coerce_citations; now rewrite map_map).
  apply Permutation_map, aggregate_perm.
Qed.

Lemma aggregate_entries results :
  Permutation (map entry results) (map entry (aggregate results)).
Proof.
  rewrite <- (coerce_citations_entry results).
  apply Permutation_map, aggregate_perm.
Qed.

(** What [run_scrape] returns is the aggregate of the records it
    collected. *)
Lemma run_scrape_returns s query total_pages scroll_count df w :
  run_scrape s query total_pages scroll_count = (Ret df, w) ->
  exists results w',
    traverse query total_pages scroll_count (build_driver s)
    = (Ret results, w')
    /\ df = aggregate results.
Proof.
  unfold run_scrape, pipeline, try_finally, mbind, ret.
  destruct (traverse query total_pages scroll_count (build_driver s))
    as [[results|e] w'] eqn:E.
  - destruct (release w') as [[[]|e'] w'']; intros H; [|discriminate].
    injection H as <- <-. eauto.
  - destruct (release w') as [[[]|e'] w'']; discriminate.
Qed.

(** C1. Whatever a run returns is ordered: of two rows, the one with more
    citations stands first; with as many citations, the one of the
    earlier page; on the same page, the one of smaller rank. The order is
    that of the counts as the frame holds them, which are 64-bit
    integers: the aggregation rearranges the collected records and drops
    none, it keeps page, rank and title of every record, and it keeps
    the counts when they are below 2^63, while a count from 2^63 up to
    2^64 comes out 2^64 smaller. The three records of the description
    come out as (20,1,2), (20,2,1), (5,1,1). *)
Theorem run_scrape_ordered :
  (forall s query total_pages scroll_count df w,
      run_scrape s query total_pages scroll_count = (Ret df, w) ->
      ordered df)
  /\ (forall results, ordered (aggregate results))
  /\ (forall results,
        Forall fits_row results -> Permutation results (aggregate results))
  /\ (forall results,
        Permutation (map entry results) (map entry (aggregate results)))
  /\ (forall p r t c,
        (2 ^ 63 <= c < 2 ^ 64)%Z ->
        aggregate [mkRecord p r t c] = [mkRecord p r t (c - 2 ^ 64)])
  /\ (forall t1 t2 t3,
        aggregate [mkRecord 1 1 t1 5; mkRecord 1 2 t2 20; mkRecord 2 1 t3 20]
        = [mkRecord 1 2 t2 20; mkRecord 2 1 t3 20; mkRecord 1 1 t1 5]).
Proof.
  split; [|split; [|split; [|split; [|split]]]].
  - intros s query total_pages scroll_count df w H.
    destruct (run_scrape_returns _ _ _ _ H) as (results & w' & _ & ->).
    apply sorted_ordered, aggregate_sorted.
  - intros results. apply sorted_ordered, aggregate_sorted.
  - intros results Hfit.
    rewrite <- (coerce_citations_id Hfit) at 1. apply aggregate_perm.
  - apply aggregate_entries.
  - intros p r t c Hc. unfold aggregate.
    cbn [df_empty coerce_citations map sort_values insert_row
         page rank title citations].
    now rewrite (wrap_int64_high Hc).
  - reflexivity.
Qed.

(** C1 on a run over the two sample pages: the run returns the three
    records in the order of the description. *)
Lemma run_scrape_ordered_witness :
  fst (run_scrape sample_site (u "agents") 2 2)
  = Ret [ mkRecord 1 2 (u "Beta") 20; mkRecord 2 1 (u "Gamma") 20;
          mkRecord 1 1 (u "Alpha") 5 ]
  /\ ordered [ mkRecord 1 2 (u "Beta") 20; mkRecord 2 1 (u "Gamma") 20;
               mkRecord 1 1 (u "Alpha") 5 ].
Proof.
  split; [vm_compute; reflexivity|].
  apply (proj1 run_scrape_ordered sample_site (u "agents") 2%Z 2%Z _
           (snd (run_scrape sample_site (u "agents") 2 2))).
  vm_compute. reflexivity.
Defined.

(** C8. Sorting is idempotent: the aggregate of an aggregate, and the sort
    of a sorted frame, are the frame itself. *)
Theorem aggregate_idempotent :
  forall results,
    aggregate (aggregate results) = aggregate results
    /\ sort_values (sort_values results) = sort_values results.
Proof.
  intros results. split.
  - unfold aggregate at 1. destruct (df_empty (aggregate results));
      [reflexivity|].
    rewrite (coerce_citations_id (aggregate_fits results)).
    apply sort_values_fixed, aggregate_sorted.
  - apply sort_values_fixed, sort_values_sorted.
Qed.

(** ** Extraction of a page *)

Lemma find_element_cases sel n :
  (exists m, find_element sel n = Ret m)
  \/ find_element sel n = Raise NoSuchElementException.
Proof.
  unfold find_element. destruct (filter sel (descendants n)); eauto.
Qed.

Lemma extract_title_returns card : exists t, extract_title card = Ret t.
Proof.
  unfold extract_title.
  destruct (find_element_cases sel_heading card) as [[h3 ->]| ->];
    simpl; [|eauto].
  destruct (find_element_cases sel_anchor h3) as [[a ->]| ->]; simpl; eauto.
Qed.

Lemma find_cite_link_returns scope : exists l, find_cite_link scope = Ret l.
Proof.
  unfold find_cite_link.
  destruct (find_element_cases sel_cites_link scope) as [[a ->]| ->];
    simpl; [eauto|].
  destruct (find_element_cases sel_cited_by_text scope) as [[a ->]| ->];
    simpl; eauto.
Qed.

Lemma locate_cite_link_returns card :
  exists l, locate_cite_link card = Ret l.
Proof.
  unfold locate_cite_link.
  assert (Hblock : exists l,
             except_Exception
               (parent <- find_result_block card ;; find_cite_link parent)
               (Ret None) = Ret l).
  { unfold find_result_block.
    destruct (filter sel_result_block (el_node card :: el_ancestors card))
      as [|parent others]; simpl; [eauto|].
    destruct (find_cite_link_returns parent) as [found ->]. simpl. eauto. }
  destruct (find_element_cases sel_toolbar (el_node card)) as [[c ->]| ->];
    simpl; [|exact Hblock].
  destruct (find_cite_link_returns c) as [[a|] ->]; simpl;
    [eauto|exact Hblock].
Qed.

Lemma extract_citations_returns card :
  exists c, extract_citations card = Ret c.
Proof.
  unfold extract_citations.
  destruct (locate_cite_link_returns card) as [[l|] ->]; cbn [bind];
    [|simpl; eauto].
  destruct (parse_citations_text_total (Some (strip (text_content l))))
    as [(n & -> & _)| ->]; simpl; eauto.
Qed.

Lemma collect_loop_numbered page_idx cards :
  forall items rank,
    collect_loop page_idx cards items rank
    = Ret (items ++ numbered page_idx rank
                      (filter (fun c => nonempty (card_title c)) cards)).
Proof.
  induction cards as [|card cards IH]; intros items rank; simpl.
  - now rewrite app_nil_r.
  - unfold card_title at 1, card_citations.
    destruct (extract_title_returns (el_node card)) as [t Ht].
    destruct (extract_citations_returns card) as [c Hc].
    rewrite Ht, Hc. simpl.
    destruct (nonempty t); rewrite IH; [|reflexivity].
    rewrite <- app_assoc. simpl. unfold card_title, card_citations.
    now rewrite Ht, Hc.
Qed.

Lemma numbered_rank page_idx cards :
  forall start,
    map rank (numbered page_idx start cards)
    = map (fun i => (start + Z.of_nat i)%Z) (seq 1 (List.length cards)).
Proof.
  induction cards as [|c cs IH]; intros start;
    cbn [numbered map List.length seq rank]; [reflexivity|].
  f_equal.
  rewrite IH, <- (seq_shift _ 1), map_map.
  apply map_ext. intros i. lia.
Qed.

Lemma numbered_title page_idx cards :
  forall rank, map title (numbered page_idx rank cards) = map card_title cards.
Proof.
  induction cards as [|c cs IH]; intros rank; simpl;
    [reflexivity|now rewrite IH].
Qed.

Lemma numbered_citations page_idx cards :
  forall rank,
    map citations (numbered page_idx rank cards) = map card_citations cards.
Proof.
  induction cards as [|c cs IH]; intros rank; cbn [numbered map citations];
    [reflexivity|now rewrite IH].
Qed.

Lemma numbered_page page_idx cards :
  forall rank,
    Forall (fun r => page r = page_idx) (numbered page_idx rank cards).
Proof.
  induction cards as [|c cs IH]; intros rank; simpl; constructor;
    [reflexivity|apply IH].
Qed.

Lemma numbered_length page_idx cards :
  forall rank, List.length (numbered page_idx rank cards) = List.length cards.
Proof.
  induction cards as [|c cs IH]; intros rank; simpl;
    [reflexivity|now rewrite IH].
Qed.

Lemma NoDup_map_of_nat l : NoDup l -> NoDup (map Z.of_nat l).
Proof.
  induction 1 as [|x l Hx _ IH]; simpl; constructor; [|exact IH].
  rewrite in_map_iff. intros (y & Hy & Hin).
  apply Nat2Z.inj in Hy. now subst y.
Qed.

(** C4. The extraction of a page returns one record per card with a
    non-empty title, in the document order of the cards, with the ranks
    1, 2, ..., k: no gap and no repetition. A card without a title adds
    no record and uses no rank. *)
Theorem page_items_dense_ranks :
  forall root page_idx,
    exists items,
      page_items root page_idx = Ret items
      /\ List.length items = List.length (titled_cards root)
      /\ map rank items = one_to (List.length (titled_cards root))
      /\ NoDup (map rank items)
      /\ map title items = map card_title (titled_cards root)
      /\ map citations items = map card_citations (titled_cards root)
      /\ Forall (fun r => page r = page_idx /\ nonempty (title r) = true)
                items.
Proof.
  intros root page_idx. unfold page_items.
  rewrite collect_loop_numbered. simpl.
  fold (titled_cards root).
  eexists. split; [reflexivity|].
  assert (Hrank : map rank (numbered page_idx 0 (titled_cards root))
                  = one_to (List.length (titled_cards root))).
  { rewrite numbered_rank. unfold one_to. apply map_ext. intros i. lia. }
  split; [apply numbered_length|].
  split; [exact Hrank|].
  split.
  { rewrite Hrank. unfold one_to.
    apply NoDup_map_of_nat, seq_NoDup. }
  split; [apply numbered_title|].
  split.
  { apply numbered_citations. }
  apply Forall_forall. intros r Hr. split.
  - pose proof (numbered_page page_idx (titled_cards root) 0) as Hp.
    rewrite Forall_forall in Hp. now apply Hp.
  - apply (in_map title) in Hr. rewrite numbered_title in Hr.
    apply in_map_iff in Hr as (c & <- & Hc).
    unfold titled_cards in Hc. apply filter_In in Hc. tauto.
Qed.

(** ** The lookup of the citation link *)

Lemma str_eqb_eq a : forall b, str_eqb a b = true -> a = b.
Proof.
  induction a as [|x a IH]; intros [|y b]; simpl; try discriminate;
    [reflexivity|].
  intros H. apply andb_true_iff in H as [Hx Ha].
  apply N.eqb_eq in Hx. subst y. f_equal. now apply IH.
Qed.

Lemma starts_with_app p : forall s, starts_with p (p ++ s) = true.
Proof.
  induction p as [|x p IH]; intros s; simpl; [reflexivity|].
  now rewrite N.eqb_refl, IH.
Qed.

Lemma contains_app a : forall p b, contains (a ++ p ++ b) p = true.
Proof.
  induction a as [|x a IH]; intros p b.
  - simpl app. destruct (p ++ b) eqn:E; simpl; rewrite <- ?E;
      now rewrite starts_with_app.
  - simpl. rewrite IH. apply orb_true_r.
Qed.

Lemma tokens_from_infix tok s :
  forall cur,
    In tok (tokens_from cur s) ->
    exists a b, rev cur ++ s = a ++ tok ++ b.
Proof.
  induction s as [|c s IH]; intros cur Hin; simpl in Hin.
  - destruct cur as [|x cur]; [contradiction|].
    destruct Hin as [<-|[]]. exists [], []. now rewrite !app_nil_r.
  - destruct (is_html_space c).
    + destruct cur as [|x cur].
      * destruct (IH [] Hin) as (a & b & E). simpl in E.
        exists (c :: a), b. simpl. now rewrite E.
      * destruct Hin as [<-|Hin].
        -- exists [], (c :: s). reflexivity.
        -- destruct (IH [] Hin) as (a & b & E). simpl in E.
           exists (rev (x :: cur) ++ c :: a), b.
           rewrite E, <- app_assoc. reflexivity.
    + destruct (IH (c :: cur) Hin) as (a & b & E).
      exists a, b. rewrite <- E. simpl. now rewrite <- app_assoc.
Qed.

Lemma has_class_infix c n :
  has_class c n = true -> exists a b, class_attr n = a ++ c ++ b.
Proof.
  unfold has_class, class_tokens. intros H.
  apply existsb_exists in H as (tok & Hin & Heq).
  apply str_eqb_eq in Heq. subst tok.
  now apply (tokens_from_infix c (class_attr n) []).
Qed.

(** A card is itself a [div] whose class attribute holds [gs_r]: the
    name [gs_ri] begins with it. *)
Lemma card_is_result_block n : sel_card n = true -> sel_result_block n = true.
Proof.
  unfold sel_card, sel_result_block. intros H.
  apply andb_true_iff in H as [Htag Hcls]. rewrite Htag. simpl.
  destruct (has_class_infix _ _ Hcls) as (a & b & E). rewrite E.
  change (u "gs_ri") with (u "gs_r" ++ u "i").
  rewrite <- (app_assoc (u "gs_r")), contains_app. reflexivity.
Qed.

Lemma find_cite_link_link_in scope :
  find_cite_link scope = Ret (link_in scope).
Proof.
  unfold find_cite_link, link_in, found.
  destruct (find_element_cases sel_cites_link scope) as [[a ->]| ->];
    simpl; [reflexivity|].
  destruct (find_element_cases sel_cited_by_text scope) as [[a ->]| ->];
    reflexivity.
Qed.

(** C3. For every card of the page, the lookup [ancestor-or-self] of the
    result block stops at the card itself, so the second stage of the
    chain searches the card again and never the block around it: the
    link found is the first of toolbar by target, toolbar by text, card
    by target, card by text. On a block whose citation link lies beside
    the card, the block holds a link reading 7 and the record gets 0. *)
Theorem result_block_lookup_stops_at_card :
  (forall root card,
      In card (driver_find_elements sel_card root) ->
      find_result_block card = Ret (el_node card)
      /\ locate_cite_link card
         = Ret (or_else
                  (match found sel_toolbar (el_node card) with
                   | Some c => link_in c
                   | None => None
                   end)
                  (link_in (el_node card))))
  /\ page_items (document stray_link_page) 1
     = Ret [mkRecord 1 1 (u "Paper") 0]
  /\ (exists card block link,
        driver_find_elements sel_card (document stray_link_page) = [card]
        /\ In block (el_ancestors card)
        /\ sel_result_block block = true
        /\ find_cite_link block = Ret (Some link)
        /\ parse_citations_text (Some (strip (text_content link)))
           = Ret 7%Z).
Proof.
  split; [|split].
  - intros root card Hin.
    unfold driver_find_elements in Hin. apply filter_In in Hin as [_ Hsel].
    assert (Hblock : find_result_block card = Ret (el_node card)).
    { unfold find_result_block. simpl.
      now rewrite (card_is_result_block _ Hsel). }
    split; [exact Hblock|].
    unfold locate_cite_link, found. rewrite Hblock.
    destruct (find_element_cases sel_toolbar (el_node card))
      as [[c ->]| ->]; cbn [bind except_NoSuchElement].
    + rewrite (find_cite_link_link_in c). cbn [bind].
      destruct (link_in c) as [l|]; [reflexivity|].
      rewrite find_cite_link_link_in. reflexivity.
    + rewrite find_cite_link_link_in. reflexivity.
  - vm_compute. reflexivity.
  - eexists _, stray_link_block, _.
    split; [vm_compute; reflexivity|].
    split; [simpl; auto|].
    split; [vm_compute; reflexivity|].
    split; [vm_compute; reflexivity|].
    vm_compute; reflexivity.
Qed.

(** The general clause of C3 at the card of the sample block. *)
Lemma result_block_lookup_stops_at_card_witness :
  find_result_block stray_card = Ret (el_node stray_card).
Proof.
  apply (proj1 (proj1 result_block_lookup_stops_at_card
                  (document stray_link_page) stray_card
                  ltac:(vm_compute; left; reflexivity))).
Defined.

(** ** The traversal as a trace *)

Lemma clean_nil : clean [].
Proof. intros p []. Qed.

Lemma clean_app ev1 ev2 : clean ev1 -> clean ev2 -> clean (ev1 ++ ev2).
Proof.
  intros H1 H2 p Hin. apply in_app_or in Hin as [Hin|Hin]; auto.
Qed.

Lemma calm_nil : calm [].
Proof. split; [apply clean_nil|intros []]. Qed.

Lemma calm_app ev1 ev2 : calm ev1 -> calm ev2 -> calm (ev1 ++ ev2).
Proof.
  intros [H1 N1] [H2 N2]. split; [now apply clean_app|].
  intros Hin. apply in_app_or in Hin. tauto.
Qed.

(** An event that is neither a load nor a warning. *)
Lemma calm_one e :
  (forall p, e <> EvLoaded p) -> e <> EvCaptchaWarning -> calm [e].
Proof.
  intros Hl Hw. split.
  - intros p [H|[]]. now destruct (Hl p).
  - intros [H|[]]. now destruct Hw.
Qed.

Lemma raise_stop_any (A B : Type) e :
  @Raise A e = Raise StopException -> @Raise B e = Raise StopException.
Proof. intros H. injection H as ->. reflexivity. Qed.

Lemma gated_pure {A : Type} (o : outcome A) :
  o <> Raise StopException -> gated (lift o).
Proof.
  intros Ho w. exists []. simpl. rewrite app_nil_r.
  split; [reflexivity|]. split; [tauto|]. left.
  split; [apply calm_nil|exact Ho].
Qed.

Lemma gated_ret {A : Type} (a : A) : gated (ret a).
Proof. apply (@gated_pure A (Ret a)). discriminate. Qed.

Lemma gated_read {A : Type} (f : world -> M A) :
  (forall w0, gated (f w0)) -> gated (fun w => f w w).
Proof. intros H w. apply (H w w). Qed.

Lemma gated_bind {A B : Type} (m : M A) (f : A -> M B) :
  gated m -> (forall a, gated (f a)) -> gated (mbind m f).
Proof.
  intros Hm Hf w. unfold mbind.
  destruct (Hm w) as (ev & Hlog & Hq & Hcase).
  destruct (m w) as [[a|e] w1] eqn:Em; simpl in *.
  - destruct Hcase as [[Hclean _]|(ev0 & pg & _ & _ & _ & H)];
      [|discriminate].
    destruct (Hf a w1) as (ev' & Hlog' & Hq' & Hcase').
    exists (ev ++ ev'). rewrite Hlog', Hlog, app_assoc.
    split; [reflexivity|]. split.
    { intros Hin. apply in_app_or in Hin. tauto. }
    destruct Hcase' as [[Hclean' Hne]|(ev0 & pg & -> & Hc0 & Hpg & Hstop)].
    + left. split; [now apply calm_app|exact Hne].
    + right. exists (ev ++ ev0), pg. rewrite app_assoc.
      split; [reflexivity|].
      split; [now apply calm_app|]. split; [exact Hpg|exact Hstop].
  - exists ev. simpl. split; [assumption|]. split; [assumption|].
    destruct Hcase as [[Hclean Hne]|(ev0 & pg & -> & Hc0 & Hpg & Hstop)].
    + left. split; [exact Hclean|].
      intros H. apply Hne. exact (@raise_stop_any B A e H).
    + right. exists ev0, pg.
      split; [reflexivity|]. split; [exact Hc0|].
      split; [exact Hpg|exact (@raise_stop_any A B e Hstop)].
Qed.

Lemma gated_try_except {A : Type} (body handler : M A) :
  gated body -> gated handler -> gated (try_except_Exception body handler).
Proof.
  intros Hb Hh w. unfold try_except_Exception.
  destruct (Hb w) as (ev & Hlog & Hq & Hcase).
  destruct (body w) as [[a|e] w1] eqn:Eb; simpl in *.
  - exists ev. simpl. split; [assumption|]. split; assumption.
  - destruct (is_Exception e) eqn:Ee.
    + destruct Hcase as [[Hclean _]|(ev0 & pg & _ & _ & _ & H)].
      * destruct (Hh w1) as (ev' & Hlog' & Hq' & Hcase').
        exists (ev ++ ev'). rewrite Hlog', Hlog, app_assoc.
        split; [reflexivity|]. split.
        { intros Hin. apply in_app_or in Hin. tauto. }
        destruct Hcase' as [[Hclean' Hne]|(ev0 & pg & -> & Hc0 & Hpg & Hs)].
        -- left. split; [now apply calm_app|exact Hne].
        -- right. exists (ev ++ ev0), pg. rewrite app_assoc.
           split; [reflexivity|].
           split; [now apply calm_app|]. split; [exact Hpg|exact Hs].
      * injection H as ->. discriminate.
    + exists ev. simpl. split; [assumption|]. split; assumption.
Qed.

Lemma gated_wait_until cond : gated (wait_until cond).
Proof.
  intros w. unfold wait_until. exists [].
  destruct (cond (document (current w))); simpl; rewrite app_nil_r;
    (split; [reflexivity|]); (split; [tauto|]); left;
    (split; [apply calm_nil|discriminate]).
Qed.

Lemma gated_scroll : gated (fun w => (Ret tt, emit EvScroll w)).
Proof.
  intros w. exists [EvScroll]. simpl.
  split; [reflexivity|]. split.
  { intros [H|[]]; discriminate. }
  left. split; [|discriminate]. apply calm_one; discriminate.
Qed.

Lemma gated_repeat n (m : M unit) : gated m -> gated (repeat_M n m).
Proof.
  intros Hm. induction n as [|n IH]; simpl.
  - apply gated_ret.
  - apply gated_bind; auto.
Qed.

Lemma gated_scroll_page times : gated (scroll_page times).
Proof. apply gated_repeat, gated_scroll. Qed.

(** A load is followed by the gate at once. *)
Lemma gated_navigate {A : Type} r (k : M A) :
  gated k -> gated (navigate r ;;; wait_if_captcha true ;;; k).
Proof.
  intros Hk w. unfold mbind, navigate, wait_if_captcha.
  destruct (respond (the_site w) r) as [pg|].
  - simpl. destruct (challenged pg) eqn:Epg.
    + exists [EvLoaded pg; EvCaptchaWarning]. simpl.
      rewrite <- app_assoc. split; [reflexivity|]. split.
      { intros [H|[H|[]]]; discriminate. }
      right. exists [], pg.
      split; [reflexivity|]. split; [apply calm_nil|].
      split; [exact Epg|reflexivity].
    + destruct (Hk (show pg w)) as (ev & Hlog & Hq & Hcase).
      exists (EvLoaded pg :: ev). rewrite Hlog. simpl.
      rewrite <- app_assoc. split; [reflexivity|]. split.
      { intros [H|H]; [discriminate|tauto]. }
      assert (Hone : calm [EvLoaded pg]).
      { split.
        - intros p [H|[]]. now injection H as <-.
        - intros [H|[]]. discriminate. }
      destruct Hcase as [[Hclean Hne]|(ev0 & p & -> & Hc0 & Hp & Hs)].
      * left. split; [|exact Hne]. apply (calm_app Hone Hclean).
      * right. exists (EvLoaded pg :: ev0), p.
        split; [reflexivity|].
        split; [apply (calm_app Hone Hc0)|split; assumption].
  - exists []. simpl. rewrite app_nil_r. split; [reflexivity|].
    split; [tauto|]. left. split; [apply calm_nil|discriminate].
Qed.

Lemma driver_find_element_no_stop sel root :
  driver_find_element sel root <> Raise StopException.
Proof.
  unfold driver_find_element.
  destruct (driver_find_elements sel root); discriminate.
Qed.

(** Encoding a query gives the encoded query or the [ValueError] of a
    character that has no encoding. *)
Lemma utf8_encode_char_result c :
  (exists bs, utf8_encode_char c = Ret bs)
  \/ utf8_encode_char c = Raise ValueError.
Proof.
  unfold utf8_encode_char.
  destruct (c <? 128)%N; [eauto|]. destruct (c <? 2048)%N; [eauto|].
  destruct ((55296 <=? c) && (c <=? 57343))%N; [now right|].
  destruct (c <? 65536)%N; eauto.
Qed.

Lemma utf8_encode_result s :
  (exists bs, utf8_encode s = Ret bs) \/ utf8_encode s = Raise ValueError.
Proof.
  induction s as [|c s IH]; cbn [utf8_encode]; [eauto|].
  destruct (utf8_encode_char_result c) as [[bs ->]| ->]; cbn [bind];
    [|now right].
  destruct IH as [[rest ->]| ->]; cbn [bind]; eauto.
Qed.

Lemma quote_plus_cases query :
  (exists encoded, quote_plus query = Ret encoded)
  \/ quote_plus query = Raise ValueError.
Proof.
  unfold quote_plus.
  destruct (utf8_encode_result query) as [[bs ->]| ->]; cbn [bind]; eauto.
Qed.

(** Writing a number out gives its notation or the [ValueError] of its
    length. *)
Lemma format_int_cases z :
  format_int z = Ret (int_to_str z) \/ format_int z = Raise ValueError.
Proof.
  unfold format_int.
  destruct (int_max_str_digits <? _)%Z; [now right|now left].
Qed.

Lemma search_url_cases query :
  (exists url, search_url query = Ret url)
  \/ search_url query = Raise ValueError.
Proof.
  unfold search_url.
  destruct (quote_plus_cases query) as [[encoded ->]| ->]; cbn [bind]; eauto.
Qed.

Lemma offset_url_cases query p :
  (exists url, offset_url query p = Ret url)
  \/ offset_url query p = Raise ValueError.
Proof.
  unfold offset_url.
  destruct (quote_plus_cases query) as [[encoded ->]| ->]; cbn [bind];
    [|now right].
  destruct (format_int_cases ((p - 1) * 10)) as [-> | ->]; cbn [bind]; eauto.
Qed.

Lemma search_url_no_stop query : search_url query <> Raise StopException.
Proof.
  destruct (search_url_cases query) as [[url ->]| ->]; discriminate.
Qed.

Lemma offset_url_no_stop query p :
  offset_url query p <> Raise StopException.
Proof.
  destruct (offset_url_cases query p) as [[url ->]| ->]; discriminate.
Qed.

Lemma gated_open_with_query query : gated (open_with_query query).
Proof.
  unfold open_with_query.
  apply gated_bind; [apply gated_pure, search_url_no_stop|]. intros _.
  apply gated_navigate, gated_bind; [apply gated_wait_until|]. intros _.
  apply gated_try_except; [|apply gated_ret].
  apply (gated_read
           (fun w0 =>
              box <~ lift (driver_find_element sel_query_box
                             (document (current w0))) ;;
              navigate (ReqSubmit query) ;;;
              wait_if_captcha true ;;; wait_until (present sel_card))).
  intros w0. apply gated_bind.
  - apply gated_pure, driver_find_element_no_stop.
  - intros _. apply gated_navigate, gated_wait_until.
Qed.

Lemma gated_go_to_page query p : gated (go_to_page query p).
Proof.
  unfold go_to_page.
  apply gated_bind; [apply gated_pure, offset_url_no_stop|]. intros _.
  apply gated_navigate, gated_wait_until.
Qed.

Lemma gated_collect_page_items p : gated (collect_page_items p).
Proof.
  intros w. unfold collect_page_items. exists [EvExtract p]. simpl.
  split; [reflexivity|]. split.
  { intros [H|[]]; discriminate. }
  left. split.
  - apply calm_one; discriminate.
  - unfold page_items. rewrite collect_loop_numbered. discriminate.
Qed.

Lemma gated_visit_pages query scroll_count ps :
  forall results, gated (visit_pages query scroll_count ps results).
Proof.
  induction ps as [|p ps IH]; intros results; simpl.
  - apply gated_ret.
  - apply gated_bind; [apply gated_go_to_page|]. intros _.
    apply gated_bind; [apply gated_scroll_page|]. intros _.
    apply gated_bind; [apply gated_collect_page_items|]. intros items.
    apply IH.
Qed.

Lemma gated_traverse query total_pages scroll_count :
  gated (traverse query total_pages scroll_count).
Proof.
  unfold traverse.
  apply gated_bind; [apply gated_open_with_query|]. intros _.
  apply gated_bind; [apply gated_scroll_page|]. intros _.
  apply gated_bind; [apply gated_collect_page_items|]. intros first.
  apply gated_visit_pages.
Qed.

Lemma gated_pipeline query total_pages scroll_count :
  gated (pipeline query total_pages scroll_count).
Proof.
  unfold pipeline. apply gated_bind; [apply gated_traverse|].
  intros results. apply gated_ret.
Qed.

(** The traversal leaves the site and the registered functions alone. *)
Lemma steady_lift {A : Type} (o : outcome A) : steady (lift o).
Proof. intros w. split; reflexivity. Qed.

Lemma steady_ret {A : Type} (a : A) : steady (ret a).
Proof. intros w. split; reflexivity. Qed.

Lemma steady_emit {A : Type} (o : world -> outcome A) e :
  steady (fun w => (o w, emit e w)).
Proof. intros w. split; reflexivity. Qed.

Lemma steady_read {A : Type} (f : world -> M A) :
  (forall w0, steady (f w0)) -> steady (fun w => f w w).
Proof. intros H w. apply (H w w). Qed.

Lemma steady_bind {A B : Type} (m : M A) (f : A -> M B) :
  steady m -> (forall a, steady (f a)) -> steady (mbind m f).
Proof.
  intros Hm Hf w. unfold mbind. destruct (Hm w) as [Hs Hh].
  destruct (m w) as [[a|e] w1]; cbn [snd] in *; [|now split].
  destruct (Hf a w1) as [Hs' Hh']. split; congruence.
Qed.

Lemma steady_try_except {A : Type} (body handler : M A) :
  steady body -> steady handler ->
  steady (try_except_Exception body handler).
Proof.
  intros Hb Hh w. unfold try_except_Exception. destruct (Hb w) as [Hs Hx].
  destruct (body w) as [[a|e] w1]; cbn [snd] in *; [now split|].
  destruct (is_Exception e); [|now split].
  destruct (Hh w1) as [Hs' Hx']. split; congruence.
Qed.

Lemma steady_navigate r : steady (navigate r).
Proof.
  intros w. unfold navigate.
  destruct (respond (the_site w) r); split; reflexivity.
Qed.

Lemma steady_wait_if_captcha prompt : steady (wait_if_captcha prompt).
Proof.
  intros w. unfold wait_if_captcha.
  destruct (challenged (current w)), prompt; split; reflexivity.
Qed.

Lemma steady_wait_until cond : steady (wait_until cond).
Proof.
  intros w. unfold wait_until.
  destruct (cond (document (current w))); split; reflexivity.
Qed.

Lemma steady_repeat n (m : M unit) : steady m -> steady (repeat_M n m).
Proof.
  intros Hm. induction n as [|n IH]; simpl.
  - apply steady_ret.
  - apply steady_bind; auto.
Qed.

Lemma steady_open_with_query query : steady (open_with_query query).
Proof.
  unfold open_with_query.
  apply steady_bind; [apply steady_lift|]. intros _.
  apply steady_bind; [apply steady_navigate|]. intros _.
  apply steady_bind; [apply steady_wait_if_captcha|]. intros _.
  apply steady_bind; [apply steady_wait_until|]. intros _.
  apply steady_try_except; [|apply steady_ret].
  apply (steady_read
           (fun w0 =>
              box <~ lift (driver_find_element sel_query_box
                             (document (current w0))) ;;
              navigate (ReqSubmit query) ;;;
              wait_if_captcha true ;;; wait_until (present sel_card))).
  intros w0. apply steady_bind; [apply steady_lift|]. intros _.
  apply steady_bind; [apply steady_navigate|]. intros _.
  apply steady_bind; [apply steady_wait_if_captcha|]. intros _.
  apply steady_wait_until.
Qed.

Lemma steady_go_to_page query p : steady (go_to_page query p).
Proof.
  unfold go_to_page.
  apply steady_bind; [apply steady_lift|]. intros _.
  apply steady_bind; [apply steady_navigate|]. intros _.
  apply steady_bind; [apply steady_wait_if_captcha|]. intros _.
  apply steady_wait_until.
Qed.

Lemma steady_scroll_page times : steady (scroll_page times).
Proof.
  apply steady_repeat. apply (steady_emit (fun _ => Ret tt)).
Qed.

Lemma steady_collect_page_items p : steady (collect_page_items p).
Proof.
  apply (steady_emit (fun w => page_items (document (current w)) p)).
Qed.

Lemma steady_visit_pages query scroll_count ps :
  forall results, steady (visit_pages query scroll_count ps results).
Proof.
  induction ps as [|p ps IH]; intros results; simpl.
  - apply steady_ret.
  - apply steady_bind; [apply steady_go_to_page|]. intros _.
    apply steady_bind; [apply steady_scroll_page|]. intros _.
    apply steady_bind; [apply steady_collect_page_items|]. intros items.
    apply IH.
Qed.

Lemma steady_pipeline query total_pages scroll_count :
  steady (pipeline query total_pages scroll_count).
Proof.
  unfold pipeline, traverse.
  apply steady_bind; [|intros results; apply steady_ret].
  apply steady_bind; [apply steady_open_with_query|]. intros _.
  apply steady_bind; [apply steady_scroll_page|]. intros _.
  apply steady_bind; [apply steady_collect_page_items|]. intros first.
  apply steady_visit_pages.
Qed.

(** The [finally] block calls [quit] once and lets no failure of it
    out. *)
Lemma release_quits w : release w = (Ret tt, emit EvQuit w).
Proof.
  unfold release, try_except_Exception, driver_quit, ret.
  destruct (quit_fails (the_site w)); reflexivity.
Qed.

Lemma run_scrape_unfold s query total_pages scroll_count :
  run_scrape s query total_pages scroll_count
  = (fst (pipeline query total_pages scroll_count (build_driver s)),
     emit EvQuit
       (snd (pipeline query total_pages scroll_count (build_driver s)))).
Proof.
  unfold run_scrape, try_finally.
  destruct (pipeline query total_pages scroll_count (build_driver s))
    as [o w']. now rewrite release_quits.
Qed.

Lemma count_quit_app ev1 ev2 :
  count_quit (ev1 ++ ev2) = (count_quit ev1 + count_quit ev2)%nat.
Proof. unfold count_quit. now rewrite filter_app, length_app. Qed.

Lemma count_quit_none ev : ~ In EvQuit ev -> count_quit ev = 0%nat.
Proof.
  unfold count_quit. induction ev as [|e ev IH]; simpl; [reflexivity|].
  intros H. destruct e; simpl; try (apply IH; tauto).
  exfalso. apply H. now left.
Qed.

Lemma safe_quit_runs alive w :
  safe_quit alive w = (Ret tt, if alive then emit EvQuit w else w).
Proof.
  unfold safe_quit. destruct alive; [|reflexivity].
  change (try_except_Exception driver_quit (ret tt) w) with (release w).
  apply release_quits.
Qed.

(** The exit of the interpreter after a run: the one registered function
    is called. *)
Lemma interpreter_exit_runs alive w :
  at_exit w = [SafeQuit] ->
  interpreter_exit alive w
  = (Ret tt, if alive then emit EvQuit w else w).
Proof.
  intros H. unfold interpreter_exit. rewrite H.
  cbn [rev app call_hooks call_hook]. unfold mbind, try_except_Exception.
  rewrite safe_quit_runs. reflexivity.
Qed.

Lemma run_scrape_at_exit s query total_pages scroll_count :
  at_exit (snd (run_scrape s query total_pages scroll_count)) = [SafeQuit].
Proof.
  rewrite run_scrape_unfold. cbn [snd emit at_exit].
  now rewrite (proj2 (steady_pipeline query total_pages scroll_count
                        (build_driver s))).
Qed.

(** C7, as stated, fails when the driver object is still alive at the
    exit of the interpreter: the run over the two sample pages releases
    the session once, and the function registered by [build_driver]
    releases it a second time. *)
Lemma live_driver_is_released_twice :
  count_quit (log (snd (run_scrape sample_site (u "agents") 2 2))) = 1%nat
  /\ count_quit
       (log (snd (interpreter_exit true
                    (snd (run_scrape sample_site (u "agents") 2 2)))))
     = 2%nat.
Proof. split; vm_compute; reflexivity. Qed.

(** C7, amended. Within a run the browser session is released exactly
    once, as the last action of the run, whatever way the try block ends:
    with the frame, with an exception of the driver, of a wait or of the
    encoding of the query, or with the stop of the script at a
    challenge. What the run returns or raises is what the try block did;
    a [quit] that fails is caught by the cleanup block, which then ends
    normally. The run leaves the function registered by [build_driver]
    behind: at the exit of the interpreter it releases the session once
    more when the driver object is still alive, and does nothing when it
    is not; it never raises. So a session is released once during the
    run and at most once more at exit. *)
Theorem run_scrape_releases_once :
  forall s query total_pages scroll_count,
    let r := run_scrape s query total_pages scroll_count in
    count_quit (log (snd r)) = 1%nat
    /\ (exists ev, log (snd r) = ev ++ [EvQuit] /\ ~ In EvQuit ev)
    /\ fst r = fst (pipeline query total_pages scroll_count (build_driver s))
    /\ (forall w, release w = (Ret tt, emit EvQuit w))
    /\ (forall w,
          driver_quit w
          = (if quit_fails (the_site w) then Raise WebDriverException
             else Ret tt, emit EvQuit w))
    /\ at_exit (snd r) = [SafeQuit]
    /\ (forall alive,
          interpreter_exit alive (snd r)
          = (Ret tt, if alive then emit EvQuit (snd r) else snd r))
    /\ (forall alive,
          count_quit (log (snd (interpreter_exit alive (snd r))))
          = if alive then 2%nat else 1%nat).
Proof.
  intros s query total_pages scroll_count r.
  pose proof (run_scrape_at_exit s query total_pages scroll_count) as Hx.
  fold r in Hx.
  assert (Hone : count_quit (log (snd r)) = 1%nat
                 /\ exists ev, log (snd r) = ev ++ [EvQuit] /\ ~ In EvQuit ev).
  { subst r. rewrite run_scrape_unfold.
    destruct (gated_pipeline query total_pages scroll_count (build_driver s))
      as (ev & Hlog & Hq & _).
    cbn [fst snd emit log]. rewrite Hlog. cbn [build_driver log app].
    split; [|exists ev; auto].
    rewrite count_quit_app, (count_quit_none _ Hq). reflexivity. }
  destruct Hone as [Hone Hlast].
  split; [exact Hone|]. split; [exact Hlast|].
  split; [subst r; now rewrite run_scrape_unfold|].
  split; [apply release_quits|].
  split.
  { intros w. unfold driver_quit.
    destruct (quit_fails (the_site w)); reflexivity. }
  split; [exact Hx|].
  split; [intros alive; now apply interpreter_exit_runs|].
  intros alive. rewrite (@interpreter_exit_runs alive _ Hx).
  destruct alive; cbn [snd emit log]; [|exact Hone].
  rewrite count_quit_app, Hone. reflexivity.
Qed.

(** ** The challenge gate *)

Lemma lower_app a b : lower (a ++ b) = lower a ++ lower b.
Proof. apply map_app. Qed.

Lemma challenged_by_phrase pg h phrase before after :
  In h hints -> lower phrase = h ->
  page_source pg = before ++ phrase ++ after ->
  challenged pg = true.
Proof.
  intros Hin Hlow Hsrc. unfold challenged.
  apply existsb_exists. exists h. split; [exact Hin|].
  rewrite Hsrc, !lower_app, Hlow. apply contains_app.
Qed.

Lemma split_at_challenge ev0 :
  forall pg' pre pg post,
    clean ev0 -> challenged pg = true ->
    ev0 ++ [EvLoaded pg'; EvCaptchaWarning; EvQuit]
    = pre ++ EvLoaded pg :: post ->
    post = [EvCaptchaWarning; EvQuit].
Proof.
  induction ev0 as [|e ev0 IH]; intros pg' pre pg post Hclean Hpg Heq.
  - destruct pre as [|a [|b [|c pre]]]; simpl in Heq.
    + now injection Heq as _ <-.
    + discriminate.
    + discriminate.
    + injection Heq as _ _ _ Heq. destruct pre; discriminate.
  - destruct pre as [|a pre]; simpl in Heq.
    + injection Heq as -> _.
      rewrite (Hclean pg) in Hpg; [discriminate|now left].
    + injection Heq as _ Heq. apply (IH pg' pre pg post); auto.
      intros p Hp. apply Hclean. now right.
Qed.

(** C5. A page whose source holds one of the challenge phrases, in any
    case of the ASCII letters, is a challenge. The gate on a challenge
    warns and stops the script. In a run, a page that shows a challenge is
    the last page loaded: the warning and the release of the session are
    all that follows (no scroll, no extraction, no further load), and the
    run ends with the stop of the script, which the page script does
    not catch; nothing in it runs again until the button is pressed
    again. *)
Theorem challenge_suspends_run :
  (forall pg h phrase before after,
      In h hints -> lower phrase = h ->
      page_source pg = before ++ phrase ++ after ->
      challenged pg = true)
  /\ (forall w,
        challenged (current w) = true ->
        wait_if_captcha true w
        = (Raise StopException, emit EvCaptchaWarning w))
  /\ (forall s query total_pages scroll_count pre pg post,
        log (snd (run_scrape s query total_pages scroll_count))
        = pre ++ EvLoaded pg :: post ->
        challenged pg = true ->
        post = [EvCaptchaWarning; EvQuit]
        /\ fst (run_scrape s query total_pages scroll_count)
           = Raise StopException)
  /\ (forall now to_excel s query total_pages scroll_count,
        nonempty (strip query) = true ->
        fst (run_scrape s query total_pages scroll_count)
        = Raise StopException ->
        on_run_button now to_excel s query total_pages scroll_count
        = (Raise StopException, [],
           log (snd (run_scrape s query total_pages scroll_count)))).
Proof.
  split; [exact challenged_by_phrase|]. split; [|split].
  - intros w Hw. unfold wait_if_captcha. now rewrite Hw.
  - intros s query total_pages scroll_count pre pg post.
    rewrite run_scrape_unfold.
    destruct (gated_pipeline query total_pages scroll_count (build_driver s))
      as (ev & Hlog & _ & Hcase).
    cbn [fst snd emit log]. rewrite Hlog. cbn [build_driver log app].
    intros Heq Hpg.
    destruct Hcase as [[[Hclean _] _]|(ev0 & pg' & -> & [Hc0 _] & _ & Hstop)].
    + exfalso.
      assert (Hin : In (EvLoaded pg) (ev ++ [EvQuit]))
        by (rewrite Heq; apply in_elt).
      apply in_app_or in Hin as [Hin|[Hin|[]]]; [|discriminate].
      rewrite (Hclean pg Hin) in Hpg. discriminate.
    + rewrite <- app_assoc in Heq. simpl in Heq.
      split; [eapply split_at_challenge; eassumption|exact Hstop].
  - intros now to_excel s query total_pages scroll_count Hq Hstop.
    unfold on_run_button. rewrite Hq. simpl.
    destruct (run_scrape s query total_pages scroll_count) as [o w].
    simpl in *. subst o. reflexivity.
Qed.

(** C5 on a run of three pages whose third page is a challenge: two
    pages are extracted, the third is not. *)
Lemma challenge_suspends_run_witness :
  challenged challenge_page = true
  /\ log (snd (run_scrape challenging_site (u "agents") 3 1))
     = [ EvLoaded sample_page1; EvLoaded sample_page1; EvScroll;
         EvExtract 1; EvLoaded sample_page2; EvScroll; EvExtract 2;
         EvLoaded challenge_page; EvCaptchaWarning; EvQuit ]
  /\ fst (run_scrape challenging_site (u "agents") 3 1)
     = Raise StopException.
Proof.
  split; [vm_compute; reflexivity|].
  split; [vm_compute; reflexivity|].
  apply (proj1 (proj2 (proj2 challenge_suspends_run))
           challenging_site (u "agents") 3%Z 1%Z
           [ EvLoaded sample_page1; EvLoaded sample_page1; EvScroll;
             EvExtract 1; EvLoaded sample_page2; EvScroll; EvExtract 2 ]
           challenge_page [EvCaptchaWarning; EvQuit]).
  - vm_compute. reflexivity.
  - vm_compute. reflexivity.
Defined.

(** ** The empty outcome *)

(** C6, as stated, fails on a site that has no result for the query when
    two pages are asked for: every page loaded yields no record, yet the
    wait for a result card on the second page times out, the run raises
    and the page script reports an error. *)
Lemma empty_run_times_out_on_barren_site :
  (forall pg page_idx,
      In (EvLoaded pg) (log (snd (run_scrape barren_site (u "zzz") 2 0))) ->
      page_items (document pg) page_idx = Ret [])
  /\ fst (run_scrape barren_site (u "zzz") 2 0) = Raise TimeoutException
  /\ (forall now to_excel,
        fst (on_run_button now to_excel barren_site (u "zzz") 2 0)
        = (Ret tt, [UiError])).
Proof.
  split; [|split].
  - intros pg page_idx Hin. vm_compute in Hin.
    repeat (destruct Hin as [Hin|Hin];
            [try discriminate; injection Hin as <-; reflexivity|]).
    contradiction.
  - vm_compute. reflexivity.
  - intros now to_excel. vm_compute. reflexivity.
Qed.

(** C6, amended. The aggregate of no record is the empty frame. When the
    traversal completes with no record, the run returns the empty frame
    and the page script reports the empty outcome, not an error. *)
Theorem empty_traversal_is_empty_outcome :
  aggregate [] = []
  /\ (forall s query total_pages scroll_count w',
        traverse query total_pages scroll_count (build_driver s)
        = (Ret [], w') ->
        run_scrape s query total_pages scroll_count
        = (Ret [], emit EvQuit w')
        /\ (forall now to_excel,
              nonempty (strip query) = true ->
              on_run_button now to_excel s query total_pages scroll_count
              = (Ret tt, [UiNoResults], log w' ++ [EvQuit]))).
Proof.
  split; [reflexivity|].
  intros s query total_pages scroll_count w' Htr.
  assert (Hrun : run_scrape s query total_pages scroll_count
                 = (Ret [], emit EvQuit w')).
  { unfold run_scrape, try_finally, pipeline, mbind.
    rewrite Htr. unfold ret. now rewrite release_quits. }
  split; [exact Hrun|].
  intros now to_excel Hq. unfold on_run_button.
  rewrite Hq, Hrun. reflexivity.
Qed.

(** The amended C6 on a site whose cards have no heading, over two pages,
    with a [quit] that fails. *)
Lemma empty_traversal_is_empty_outcome_witness :
  fst (run_scrape untitled_site (u "zzz") 2 1) = Ret []
  /\ (forall now to_excel,
        fst (on_run_button now to_excel untitled_site (u "zzz") 2 1)
        = (Ret tt, [UiNoResults])).
Proof.
  pose proof
    (proj2 empty_traversal_is_empty_outcome untitled_site (u "zzz") 2%Z 1%Z
       (snd (traverse (u "zzz") 2 1 (build_driver untitled_site)))
       ltac:(vm_compute; reflexivity)) as [Hrun Hui].
  split.
  - now rewrite Hrun.
  - intros now to_excel.
    rewrite (Hui now to_excel ltac:(vm_compute; reflexivity)). reflexivity.
Defined.

(** ** The export *)

Lemma sanitize_nth query :
  forall i c,
    nth_error query i = Some c ->
    nth_error (sanitize query) i = Some (if is_unsafe c then 95%N else c).
Proof.
  intros i c H. unfold sanitize. now rewrite nth_error_map, H.
Qed.

Lemma sanitize_safe query :
  Forall (fun c => is_unsafe c = false) (sanitize query).
Proof.
  unfold sanitize. apply Forall_map, Forall_forall. intros c _.
  destruct (is_unsafe c) eqn:E; [reflexivity|exact E].
Qed.

(** C9, as stated, fails: the name of the export of the query [a/b] does
    not begin with [results_]. *)
Lemma export_file_name_not_results_prefix :
  export_file_name (mkDatetime 2024 1 2 3 4 5) (u "a/b")
  = u "scholar_results_a_b_20240102_030405.xlsx"
  /\ (forall ext,
        export_file_name (mkDatetime 2024 1 2 3 4 5) (u "a/b")
        <> u "results_" ++ sanitize (u "a/b") ++ u "_"
           ++ strftime_stamp (mkDatetime 2024 1 2 3 4 5) ++ ext).
Proof.
  split; [vm_compute; reflexivity|].
  intros ext. vm_compute. discriminate.
Qed.

(** C9, amended. The export is named
    [scholar_results_<sanitized query>_<stamp>.xlsx]; the sanitized query
    is the query with each of the nine characters of the pattern replaced
    by an underscore and every other character kept, and the stamp has
    fifteen characters. *)
Theorem export_file_name_convention :
  forall now to_excel df query,
    (exists content,
        df_to_excel_bytes now to_excel df query
        = PyTuple [ PyStr (u "scholar_results_" ++ sanitize query ++ u "_"
                           ++ strftime_stamp now ++ u ".xlsx");
                    content ])
    /\ List.length (sanitize query) = List.length query
    /\ Forall (fun c => is_unsafe c = false) (sanitize query)
    /\ (forall i c,
          nth_error query i = Some c ->
          nth_error (sanitize query) i
          = Some (if is_unsafe c then 95%N else c))
    /\ List.length (strftime_stamp now) = 15%nat.
Proof.
  intros now to_excel df query.
  split; [eexists; reflexivity|].
  split; [apply length_map|].
  split; [apply sanitize_safe|].
  split; [apply sanitize_nth|reflexivity].
Qed.

(** The amended C9 at the query [a/b]. *)
Lemma export_file_name_convention_witness :
  nth_error (sanitize (u "a/b")) 1 = Some 95%N.
Proof.
  apply (proj1 (proj2 (proj2 (proj2
           (export_file_name_convention (mkDatetime 2024 1 2 3 4 5)
              (fun _ => []) [] (u "a/b"))))) 1%nat 47%N).
  reflexivity.
Defined.

(** C10. The export returns a tuple of the file name and the bytes of the
    spreadsheet, not a byte string; the page script unpacks the two and
    offers the bytes for download under that name. *)
Theorem df_to_excel_bytes_returns_pair :
  forall now to_excel df query,
    df_to_excel_bytes now to_excel df query
    = PyTuple [PyStr (export_file_name now query); PyBytes (to_excel df)]
    /\ is_bytes (df_to_excel_bytes now to_excel df query) = false
    /\ unpack2 (df_to_excel_bytes now to_excel df query)
       = Ret (PyStr (export_file_name now query), PyBytes (to_excel df))
    /\ show_results now to_excel df query
       = (Ret tt,
          [ UiSuccess (List.length df); UiPreview df;
            UiDownload (PyBytes (to_excel df))
                       (PyStr (export_file_name now query)) xlsx_mime;
            UiInfo ]).
Proof.
  intros now to_excel df query. repeat split.
Qed.

(** * Further properties of the code *)

(** ** The parser and the text around the number *)

Lemma parse_citations_text_search t :
  parse_citations_text (Some t)
  = match re_search_digits t with
    | Some g => py_int g
    | None => Ret 0%Z
    end.
Proof. destruct t; reflexivity. Qed.

Lemma re_search_digits_skip pre t :
  no_digit pre -> re_search_digits (pre ++ t) = re_search_digits t.
Proof.
  induction 1 as [|c p Hc _ IH]; simpl; [reflexivity|]. now rewrite Hc.
Qed.

Lemma take_digits_suffix s sfx :
  no_digit sfx -> take_digits (s ++ sfx) = take_digits s.
Proof.
  intros Hs. induction s as [|c s IH]; simpl.
  - destruct Hs as [|x sfx Hx _]; simpl; [reflexivity|now rewrite Hx].
  - destruct (is_digit c); [now rewrite IH|reflexivity].
Qed.

Lemma re_search_digits_suffix s sfx :
  no_digit sfx -> re_search_digits (s ++ sfx) = re_search_digits s.
Proof.
  intros Hs. induction s as [|c s IH]; simpl.
  - now apply re_search_digits_none.
  - destruct (is_digit c); [now rewrite take_digits_suffix|exact IH].
Qed.

Lemma space_is_no_digit c : is_space c = true -> is_digit c = false.
Proof.
  unfold is_space. intros H.
  assert (Hc : (9 <= c <= 13 \/ 28 <= c <= 32 \/ c = 133 \/ c = 160
                \/ c = 5760 \/ 8192 <= c <= 8202 \/ c = 8232 \/ c = 8233
                \/ c = 8239 \/ c = 8287 \/ c = 12288)%N).
  { repeat rewrite ?orb_true_iff, ?andb_true_iff, ?N.leb_le, ?N.eqb_eq in H.
    lia. }
  clear H.
  assert (Hlt : (c < 16384)%N) by lia.
  assert (Hd : forall z, In z nd_zeros ->
                 ((z <=? c) && (c <? z + 10))%N = false).
  { intros z Hz. simpl in Hz.
    repeat (destruct Hz as [<-|Hz];
            [apply andb_false_iff; rewrite N.leb_gt, N.ltb_ge; lia|]).
    contradiction. }
  unfold is_digit, digit_value.
  induction nd_zeros as [|z zs IH]; simpl; [reflexivity|].
  rewrite (Hd z) by now left.
  apply IH. intros z' Hz'. apply Hd. now right.
Qed.

Lemma lstrip_split s :
  exists a, s = a ++ lstrip s /\ Forall (fun c => is_space c = true) a.
Proof.
  induction s as [|c s (a & Ha & Hsp)]; simpl.
  - exists []. split; [reflexivity|constructor].
  - destruct (is_space c) eqn:E.
    + exists (c :: a). split; [simpl; now rewrite <- Ha|now constructor].
    + exists []. split; [reflexivity|constructor].
Qed.

Lemma strip_split s :
  exists a b,
    s = a ++ strip s ++ b
    /\ Forall (fun c => is_space c = true) a
    /\ Forall (fun c => is_space c = true) b.
Proof.
  unfold strip, rstrip.
  destruct (lstrip_split s) as (a & Ha & Hsa).
  destruct (lstrip_split (rev (lstrip s))) as (b & Hb & Hsb).
  exists a, (rev b). split; [|split].
  - rewrite Ha at 1. f_equal.
    rewrite <- (rev_involutive (lstrip s)) at 1.
    rewrite Hb at 1. now rewrite rev_app_distr.
  - exact Hsa.
  - now apply Forall_rev.
Qed.

Lemma spaces_no_digit a :
  Forall (fun c => is_space c = true) a -> no_digit a.
Proof.
  intros H. eapply Forall_impl; [|exact H].
  intros c. apply space_is_no_digit.
Qed.

(** X1. Text without a digit before or after a text does not change what
    the parser returns for it; in particular the [strip()] applied to the
    link text before parsing makes no difference. *)
Theorem parse_citations_text_ignores_surroundings :
  (forall pre t sfx,
      no_digit pre -> no_digit sfx ->
      parse_citations_text (Some (pre ++ t ++ sfx))
      = parse_citations_text (Some t))
  /\ (forall t,
        parse_citations_text (Some (strip t))
        = parse_citations_text (Some t)).
Proof.
  assert (H : forall pre t sfx,
             no_digit pre -> no_digit sfx ->
             parse_citations_text (Some (pre ++ t ++ sfx))
             = parse_citations_text (Some t)).
  { intros pre t sfx Hpre Hsfx. rewrite !parse_citations_text_search.
    now rewrite re_search_digits_skip, re_search_digits_suffix. }
  split; [exact H|].
  intros t. destruct (strip_split t) as (a & b & Ht & Ha & Hb).
  rewrite Ht at 2. symmetry. apply H; now apply spaces_no_digit.
Qed.

(** X1 at the label [" Cited by 42 "]. *)
Lemma parse_citations_text_ignores_surroundings_witness :
  parse_citations_text (Some (u " Cited by " ++ u "42" ++ u " "))
  = parse_citations_text (Some (u "42")).
Proof.
  apply (proj1 parse_citations_text_ignores_surroundings);
    repeat constructor.
Defined.

(** ** What a record of a page holds *)

Lemma lstrip_head s h r : lstrip s = h :: r -> is_space h = false.
Proof.
  induction s as [|c s IH]; simpl; [discriminate|].
  destruct (is_space c) eqn:E; [exact IH|].
  intros H. injection H as <- _. exact E.
Qed.

Lemma lstrip_fixed s : lstrip (lstrip s) = lstrip s.
Proof.
  destruct (lstrip s) as [|h r] eqn:E; [reflexivity|].
  simpl. now rewrite (@lstrip_head s h r E).
Qed.

Lemma lstrip_snoc h l :
  is_space h = false -> exists x, lstrip (l ++ [h]) = x ++ [h].
Proof.
  intros Hh. induction l as [|c l (x & Hx)]; simpl.
  - rewrite Hh. now exists [].
  - destruct (is_space c); [now exists x|].
    now exists (c :: l).
Qed.

Lemma strip_fixed s : strip (strip s) = strip s.
Proof.
  unfold strip at 1.
  assert (Hl : lstrip (strip s) = strip s).
  { unfold strip, rstrip.
    destruct (lstrip s) as [|h r] eqn:E; [reflexivity|].
    pose proof (@lstrip_head s h r E) as Hh.
    simpl rev. destruct (@lstrip_snoc h (rev r) Hh) as (x & ->).
    rewrite rev_app_distr. simpl. now rewrite Hh. }
  rewrite Hl. unfold strip, rstrip.
  now rewrite rev_involutive, lstrip_fixed.
Qed.

Lemma extract_title_trimmed card t :
  extract_title card = Ret t -> strip t = t.
Proof.
  unfold extract_title.
  destruct (find_element_cases sel_heading card) as [[h3 ->]| ->]; simpl.
  - destruct (find_element_cases sel_anchor h3) as [[a ->]| ->]; simpl;
      intros H; injection H as <-; apply strip_fixed.
  - intros H. now injection H as <-.
Qed.

Lemma extract_citations_nonneg card :
  exists c, extract_citations card = Ret c /\ (0 <= c)%Z.
Proof.
  unfold extract_citations.
  destruct (locate_cite_link_returns card) as [[l|] ->]; cbn [bind].
  - destruct (parse_citations_text_total (Some (strip (text_content l))))
      as [(n & -> & Hn)| ->]; simpl; [eauto|].
    exists 0%Z. split; [reflexivity|lia].
  - simpl. exists 0%Z. split; [reflexivity|lia].
Qed.

Lemma card_title_trimmed c : strip (card_title c) = card_title c.
Proof.
  unfold card_title.
  destruct (extract_title (el_node c)) as [t|e] eqn:E; [|reflexivity].
  now apply (@extract_title_trimmed (el_node c)).
Qed.

Lemma card_citations_nonneg c : (0 <= card_citations c)%Z.
Proof.
  unfold card_citations.
  destruct (extract_citations_nonneg c) as (n & -> & Hn). exact Hn.
Qed.

Lemma numbered_fields page_idx cards :
  forall start r,
    In r (numbered page_idx start cards) ->
    (0 <= citations r)%Z /\ strip (title r) = title r.
Proof.
  induction cards as [|c cs IH]; intros start r; simpl; [contradiction|].
  intros [<-|Hin]; [|now apply (IH (start + 1)%Z)].
  simpl. split; [apply card_citations_nonneg|apply card_title_trimmed].
Qed.

(** X2. Every record of a page has a citation count that is not
    negative, a title without blanks at either end, and a rank between 1
    and the number of records of the page. *)
Theorem page_items_records_well_formed :
  forall root page_idx,
    exists items,
      page_items root page_idx = Ret items
      /\ Forall (fun r =>
                   (0 <= citations r)%Z
                   /\ strip (title r) = title r
                   /\ (1 <= rank r <= Z.of_nat (List.length items))%Z)
                items.
Proof.
  intros root page_idx. unfold page_items.
  rewrite collect_loop_numbered. simpl.
  eexists. split; [reflexivity|].
  apply Forall_forall. intros r Hr.
  destruct (@numbered_fields _ _ _ _ Hr) as [Hc Ht].
  split; [exact Hc|]. split; [exact Ht|].
  rewrite numbered_length.
  apply (in_map rank) in Hr. rewrite numbered_rank in Hr.
  apply in_map_iff in Hr as (i & <- & Hi). apply in_seq in Hi. lia.
Qed.

(** ** Where the citation link comes from *)

Lemma descendants_trans n :
  forall c l,
    In c (descendants n) -> In l (descendants c) -> In l (descendants n).
Proof.
  induction n as [tag attrs kids IH|data] using node_tree_ind;
    intros c l Hc Hl; simpl in *; [|contradiction].
  apply in_flat_map in Hc as (k & Hk & Hck).
  apply in_flat_map. exists k. split; [exact Hk|].
  destruct Hck as [<-|Hck]; [now right|].
  right. rewrite Forall_forall in IH. exact (IH k Hk c l Hck Hl).
Qed.

Lemma found_spec sel n m :
  found sel n = Some m -> sel m = true /\ In m (descendants n).
Proof.
  unfold found, find_element.
  destruct (filter sel (descendants n)) as [|x rest] eqn:E; [discriminate|].
  intros H. injection H as <-.
  assert (Hin : In x (filter sel (descendants n))) by (rewrite E; now left).
  apply filter_In in Hin. tauto.
Qed.

Lemma link_in_spec scope l :
  link_in scope = Some l ->
  In l (descendants scope)
  /\ (sel_cites_link l = true \/ sel_cited_by_text l = true).
Proof.
  unfold link_in, or_else.
  destruct (found sel_cites_link scope) as [a|] eqn:E.
  - intros H. injection H as <-.
    destruct (found_spec _ _ E). tauto.
  - intros H. destruct (found_spec _ _ H). tauto.
Qed.

Lemma locate_cite_link_of_card root card :
  In card (driver_find_elements sel_card root) ->
  locate_cite_link card
  = Ret (or_else
           (match found sel_toolbar (el_node card) with
            | Some c => link_in c
            | None => None
            end)
           (link_in (el_node card))).
Proof.
  intros Hin.
  unfold driver_find_elements in Hin. apply filter_In in Hin as [_ Hsel].
  assert (Hblock : find_result_block card = Ret (el_node card)).
  { unfold find_result_block. simpl.
    now rewrite (card_is_result_block _ Hsel). }
  unfold locate_cite_link, found. rewrite Hblock.
  destruct (find_element_cases sel_toolbar (el_node card))
    as [[c ->]| ->]; cbn [bind except_NoSuchElement].
  - rewrite (find_cite_link_link_in c). cbn [bind].
    destruct (link_in c) as [l|]; [reflexivity|].
    rewrite find_cite_link_link_in. reflexivity.
  - rewrite find_cite_link_link_in. reflexivity.
Qed.

(** X3. The link a card's citation count is read from is an anchor in
    the subtree of that card, whose target holds [cites=] or whose text
    holds one of the two phrases: a count is never read from the block
    around the card or from the rest of the page. The subtree of a card
    holds the cards nested in it: on the sample page with a card inside a
    card, the outer record gets the count of the inner card's link. *)
Theorem cite_link_lies_in_card :
  (forall root card l,
      In card (driver_find_elements sel_card root) ->
      locate_cite_link card = Ret (Some l) ->
      In l (descendants (el_node card))
      /\ has_tag (u "a") l = true
      /\ (sel_cites_link l = true \/ sel_cited_by_text l = true))
  /\ page_items (document nested_page) 1
     = Ret [mkRecord 1 1 (u "Outer") 9; mkRecord 1 2 (u "Inner") 9].
Proof.
  split; [|vm_compute; reflexivity].
  intros root card l Hin Hloc.
  rewrite (locate_cite_link_of_card _ _ Hin) in Hloc.
  injection Hloc as Hloc.
  assert (H : In l (descendants (el_node card))
              /\ (sel_cites_link l = true \/ sel_cited_by_text l = true)).
  { unfold or_else in Hloc.
    destruct (found sel_toolbar (el_node card)) as [c|] eqn:Ec.
    - destruct (link_in c) as [a|] eqn:Ea.
      + injection Hloc as <-.
        destruct (link_in_spec _ Ea) as [Hd Hs].
        destruct (found_spec _ _ Ec) as [_ Hc].
        split; [exact (descendants_trans _ _ _ Hc Hd)|exact Hs].
      + now apply link_in_spec.
    - now apply link_in_spec. }
  destruct H as [Hd Hs]. split; [exact Hd|]. split; [|exact Hs].
  unfold sel_cites_link, sel_cited_by_text in Hs.
  destruct Hs as [Hs|Hs]; apply andb_true_iff in Hs; tauto.
Qed.

(** X3 at the first card of the first sample page. *)
Lemma cite_link_lies_in_card_witness :
  In (anchor "/scholar?cites=42" "Cited by 5")
     (descendants (el_node sample_card)).
Proof.
  exact (proj1 (proj1 cite_link_lies_in_card
                  (document sample_page1) sample_card
                  (anchor "/scholar?cites=42" "Cited by 5")
                  ltac:(vm_compute; left; reflexivity)
                  ltac:(vm_compute; reflexivity))).
Defined.

(** ** Navigation *)

Lemma go_to_page_cases query p w :
  go_to_page query p w
  = match offset_url query p with
    | Raise e => (Raise e, w)
    | Ret _ =>
        match respond (the_site w) (ReqOffset ((p - 1) * 10) query) with
        | Fails => (Raise WebDriverException, w)
        | Loads pg =>
            if challenged pg
            then (Raise StopException, emit EvCaptchaWarning (show pg w))
            else if present sel_card (document pg)
                 then (Ret tt, show pg w)
                 else (Raise TimeoutException, show pg w)
        end
    end.
Proof.
  unfold go_to_page, mbind, lift, navigate, wait_if_captcha, wait_until.
  destruct (offset_url query p) as [url|e]; [|reflexivity].
  destruct (respond (the_site w) (ReqOffset ((p - 1) * 10) query))
    as [pg|]; [|reflexivity].
  cbn [show current]. destruct (challenged pg); [reflexivity|].
  cbn [show current].
  destruct (present sel_card (document pg)); reflexivity.
Qed.

(** X4. [go_to_page] builds the address and asks for the offset ten
    times the page number less one. It returns normally exactly when the
    address can be built (the query has an encoding and the offset is
    not too long to be written out) and the site answers with a page
    that shows no challenge and holds a result card; that page is then
    the current one. When the address cannot be built, [go_to_page]
    raises [ValueError] before the site is asked. Otherwise a driver
    failure leaves the session where it was, a page that shows a
    challenge brings the warning and stops the script, and a page
    without a result card is a timeout. *)
Theorem go_to_page_returns :
  forall query p w,
    (forall w',
        go_to_page query p w = (Ret tt, w') <->
        exists url pg,
          offset_url query p = Ret url
          /\ respond (the_site w) (ReqOffset ((p - 1) * 10) query) = Loads pg
          /\ challenged pg = false
          /\ present sel_card (document pg) = true
          /\ w' = show pg w)
    /\ ((exists url, offset_url query p = Ret url)
        \/ offset_url query p = Raise ValueError)
    /\ (offset_url query p = Raise ValueError ->
        go_to_page query p w = (Raise ValueError, w))
    /\ (forall url,
          offset_url query p = Ret url ->
          (respond (the_site w) (ReqOffset ((p - 1) * 10) query) = Fails ->
           go_to_page query p w = (Raise WebDriverException, w))
          /\ (forall pg,
                respond (the_site w) (ReqOffset ((p - 1) * 10) query)
                = Loads pg ->
                (challenged pg = true ->
                 go_to_page query p w
                 = (Raise StopException,
                    emit EvCaptchaWarning (show pg w)))
                /\ (challenged pg = false ->
                    present sel_card (document pg) = false ->
                    go_to_page query p w
                    = (Raise TimeoutException, show pg w)))).
Proof.
  intros query p w. rewrite go_to_page_cases.
  split; [|split; [apply offset_url_cases|]].
  - intros w'. destruct (offset_url query p) as [url|e] eqn:Eq.
    + destruct (respond (the_site w) (ReqOffset ((p - 1) * 10) query))
        as [pg|] eqn:E.
      * split.
        -- destruct (challenged pg) eqn:Ec; [discriminate|].
           destruct (present sel_card (document pg)) eqn:Ep;
             [|discriminate].
           intros H. injection H as <-. exists url, pg. auto.
        -- intros (url' & pg' & _ & Hl & Hc & Hp & ->). injection Hl as <-.
           now rewrite Hc, Hp.
      * split; [discriminate|].
        intros (url' & pg' & _ & Hl & _). discriminate.
    + split; [discriminate|].
      intros (url' & pg' & Hq & _). discriminate.
  - split.
    + intros Hq. now rewrite Hq.
    + intros url Hq. rewrite Hq. split.
      * intros Hf. now rewrite Hf.
      * intros pg Hl. rewrite Hl. split.
        -- intros Hc. now rewrite Hc.
        -- intros Hc Hp. now rewrite Hc, Hp.
Qed.

(** X4 on the second page of the sample site, and on a query that is a
    lone surrogate. *)
Lemma go_to_page_returns_witness :
  go_to_page (u "agents") 2 (build_driver sample_site)
  = (Ret tt, show sample_page2 (build_driver sample_site))
  /\ go_to_page lone_surrogate 2 (build_driver sample_site)
     = (Raise ValueError, build_driver sample_site).
Proof.
  split.
  - apply (proj1 (go_to_page_returns (u "agents") 2
                    (build_driver sample_site))).
    exists (u "https://scholar.google.co.kr/scholar?start=10&q=agents&hl=ko&as_sdt=0,5"),
      sample_page2.
    repeat split; vm_compute; reflexivity.
  - apply (proj1 (proj2 (proj2 (go_to_page_returns lone_surrogate 2
                                  (build_driver sample_site))))).
    vm_compute. reflexivity.
Defined.

Lemma open_with_query_cases query w :
  open_with_query query w
  = match search_url query with
    | Raise e => (Raise e, w)
    | Ret _ =>
        match respond (the_site w) (ReqSearch query) with
        | Fails => (Raise WebDriverException, w)
        | Loads pg =>
            if challenged pg
            then (Raise StopException, emit EvCaptchaWarning (show pg w))
            else if present sel_query_box (document pg)
                    || present sel_card (document pg)
            then
              if present sel_query_box (document pg)
              then match respond (the_site w) (ReqSubmit query) with
                   | Fails => (Ret tt, show pg w)
                   | Loads pg2 =>
                       if challenged pg2
                       then (Raise StopException,
                             emit EvCaptchaWarning (show pg2 (show pg w)))
                       else (Ret tt, show pg2 (show pg w))
                   end
              else (Ret tt, show pg w)
            else (Raise TimeoutException, show pg w)
        end
    end.
Proof.
  unfold open_with_query, mbind, navigate, wait_if_captcha, wait_until,
    try_except_Exception, lift, ret, driver_find_element, present.
  destruct (search_url query) as [url|e]; [|reflexivity].
  destruct (respond (the_site w) (ReqSearch query)) as [pg|]; [|reflexivity].
  cbv beta iota. cbn [show current the_site].
  destruct (challenged pg); [reflexivity|].
  cbv beta iota. cbn [show current the_site].
  destruct (driver_find_elements sel_query_box (document pg))
    as [|box rest] eqn:Eb;
    destruct (driver_find_elements sel_card (document pg)) as [|c cs];
    cbn [orb]; cbv beta iota; cbn [show current the_site is_Exception];
    rewrite ?Eb; cbv beta iota; cbn [is_Exception]; try reflexivity.
  all: destruct (respond (the_site w) (ReqSubmit query)) as [pg2|];
    cbv beta iota; cbn [show current the_site is_Exception];
    try reflexivity.
  all: destruct (challenged pg2);
    cbv beta iota; cbn [show current the_site emit is_Exception];
    try reflexivity.
  all: destruct (driver_find_elements sel_card (document pg2));
    reflexivity.
Qed.

(** X5. A query that has no encoding makes [open_with_query] raise
    [ValueError] before the site is asked. For a query that has one: once
    the page of the search URL is loaded, shows no challenge and holds
    the query box or a result card, [open_with_query] cannot fail: a
    driver failure or a timeout of the second step (the query typed into
    the box) is swallowed. It stops the script exactly when the page
    loaded by the second step shows a challenge, and when it returns
    normally the current page shows no challenge. *)
Theorem open_with_query_second_step_is_swallowed :
  forall query w,
    (quote_plus query = Raise ValueError ->
     open_with_query query w = (Raise ValueError, w))
    /\ (forall encoded pg,
          quote_plus query = Ret encoded ->
          respond (the_site w) (ReqSearch query) = Loads pg ->
          challenged pg = false ->
          present sel_query_box (document pg)
          || present sel_card (document pg) = true ->
          (fst (open_with_query query w) = Ret tt
           \/ fst (open_with_query query w) = Raise StopException)
          /\ (fst (open_with_query query w) = Raise StopException <->
              present sel_query_box (document pg) = true
              /\ exists pg2,
                   respond (the_site w) (ReqSubmit query) = Loads pg2
                   /\ challenged pg2 = true)
          /\ (fst (open_with_query query w) = Ret tt ->
              challenged (current (snd (open_with_query query w)))
              = false)).
Proof.
  intros query w. rewrite open_with_query_cases. unfold search_url. split.
  { intros Hq. now rewrite Hq. }
  intros encoded pg Hq Hl Hc Hp. rewrite Hq, Hl, Hc, Hp. cbn [bind].
  destruct (present sel_query_box (document pg)) eqn:Eb.
  - destruct (respond (the_site w) (ReqSubmit query)) as [pg2|] eqn:E2.
    + destruct (challenged pg2) eqn:Ec2; cbn [fst snd].
      * split; [now right|]. split; [|discriminate].
        split; [intros _; split; [reflexivity|now exists pg2]|reflexivity].
      * split; [now left|]. split.
        -- split; [discriminate|].
           intros (_ & pg' & H & Hc'). injection H as <-. congruence.
        -- intros _. exact Ec2.
    + cbn [fst snd]. split; [now left|]. split.
      * split; [discriminate|]. intros (_ & pg' & H & _). discriminate.
      * intros _. exact Hc.
  - cbn [fst snd]. split; [now left|]. split.
    + split; [discriminate|]. intros (H & _). discriminate.
    + intros _. exact Hc.
Qed.

(** X5 on a site whose second step fails: the first page stays; and on
    a query that is a lone surrogate. *)
Lemma open_with_query_second_step_is_swallowed_witness :
  fst (open_with_query (u "agents") (build_driver one_page_site)) = Ret tt
  /\ open_with_query lone_surrogate (build_driver one_page_site)
     = (Raise ValueError, build_driver one_page_site).
Proof.
  split.
  - destruct (proj1 (proj2 (open_with_query_second_step_is_swallowed
                              (u "agents") (build_driver one_page_site))
                       (u "agents") sample_page1
                       ltac:(vm_compute; reflexivity)
                       ltac:(reflexivity)
                       ltac:(vm_compute; reflexivity)
                       ltac:(vm_compute; reflexivity))) as [H|H].
    + exact H.
    + vm_compute in H. discriminate.
  - apply (proj1 (open_with_query_second_step_is_swallowed
                    lone_surrogate (build_driver one_page_site))).
    vm_compute. reflexivity.
Defined.

(** ** The shape of a run that returns *)

Lemma work_app ev1 ev2 : work (ev1 ++ ev2) = work ev1 ++ work ev2.
Proof. apply filter_app. Qed.

Lemma work_scrolls n : work (repeat EvScroll n) = repeat EvScroll n.
Proof. induction n as [|n IH]; simpl; [reflexivity|now rewrite IH]. Qed.

Lemma go_to_page_quiet query p w :
  work (log (snd (go_to_page query p w))) = work (log w).
Proof.
  rewrite go_to_page_cases.
  destruct (offset_url query p) as [url|e]; [|reflexivity].
  destruct (respond (the_site w) (ReqOffset ((p - 1) * 10) query))
    as [pg|]; [|reflexivity].
  destruct (challenged pg);
    [|destruct (present sel_card (document pg))];
    cbn [snd show emit log]; rewrite ?work_app; cbn [work filter is_work];
    now rewrite ?app_nil_r.
Qed.

Lemma open_with_query_quiet query w :
  work (log (snd (open_with_query query w))) = work (log w).
Proof.
  rewrite open_with_query_cases.
  destruct (search_url query) as [url|e]; [|reflexivity].
  destruct (respond (the_site w) (ReqSearch query)) as [pg|];
    [|reflexivity].
  destruct (challenged pg);
    [|destruct (present sel_query_box (document pg)
                || present sel_card (document pg));
      [destruct (present sel_query_box (document pg));
       [destruct (respond (the_site w) (ReqSubmit query)) as [pg2|];
        [destruct (challenged pg2)|]|]|]];
    cbn [snd show emit log]; rewrite ?work_app; cbn [work filter is_work];
    now rewrite ?app_nil_r.
Qed.

Lemma scroll_page_runs times w :
  scroll_page times w
  = (Ret tt,
     mkWorld (the_site w) (current w)
       (log w ++ repeat EvScroll (Z.to_nat times)) (at_exit w)).
Proof.
  unfold scroll_page. generalize (Z.to_nat times). intros n. revert w.
  induction n as [|n IH]; intros w; simpl.
  - unfold ret. rewrite app_nil_r. now destruct w.
  - unfold mbind. rewrite IH. unfold emit. simpl.
    now rewrite <- app_assoc.
Qed.

Lemma page_items_returns root p :
  page_items root p
  = Ret (numbered p 0 (titled_cards root)).
Proof.
  unfold page_items. now rewrite collect_loop_numbered.
Qed.

Lemma visit_pages_success query scroll_count ps :
  forall results w out w',
    visit_pages query scroll_count ps results w = (Ret out, w') ->
    work (log w')
    = work (log w) ++ flat_map (page_work scroll_count) ps
    /\ exists blocks,
         out = results ++ List.concat blocks /\ Forall2 block_of ps blocks.
Proof.
  induction ps as [|p ps IH]; intros results w out w' H.
  - simpl in H. injection H as <- <-. simpl. rewrite !app_nil_r.
    split; [reflexivity|]. exists []. split; [now rewrite app_nil_r|].
    constructor.
  - cbn [visit_pages] in H. unfold mbind in H.
    pose proof (go_to_page_quiet query p w) as Hq.
    destruct (go_to_page query p w) as [[[]|e] w1]; [|discriminate].
    cbn [snd] in Hq. rewrite scroll_page_runs in H.
    unfold collect_page_items in H. cbn [current the_site log] in H.
    rewrite page_items_returns in H. unfold emit in H.
    cbn [current the_site log] in H.
    apply IH in H as (Hw & blocks & -> & Hb). cbn [log] in Hw.
    split.
    + rewrite Hw, !work_app, work_scrolls, Hq. cbn [flat_map].
      unfold page_work. cbn [work filter is_work].
      now rewrite <- !app_assoc.
    + exists (numbered p 0 (titled_cards (document (current w1))) :: blocks).
      split; [simpl; now rewrite <- app_assoc|].
      constructor; [now exists (document (current w1))|exact Hb].
Qed.

Lemma traverse_success query total_pages scroll_count w results w' :
  traverse query total_pages scroll_count w = (Ret results, w') ->
  work (log w')
  = work (log w) ++ flat_map (page_work scroll_count) (pages_of total_pages)
  /\ exists blocks,
       results = List.concat blocks
       /\ Forall2 block_of (pages_of total_pages) blocks.
Proof.
  unfold traverse, mbind. intros H.
  pose proof (open_with_query_quiet query w) as Hq.
  destruct (open_with_query query w) as [[[]|e] w1]; [|discriminate].
  cbn [snd] in Hq. rewrite scroll_page_runs in H.
  unfold collect_page_items in H. cbn [current the_site log] in H.
  rewrite page_items_returns in H. unfold emit in H.
  cbn [current the_site log] in H.
  apply visit_pages_success in H as (Hw & blocks & -> & Hb).
  cbn [log] in Hw. split.
  - rewrite Hw, !work_app, work_scrolls, Hq. unfold pages_of.
    cbn [flat_map]. unfold page_work at 2. cbn [work filter is_work].
    now rewrite <- !app_assoc.
  - exists (numbered 1 0 (titled_cards (document (current w1))) :: blocks).
    split; [reflexivity|].
    unfold pages_of. constructor;
      [now exists (document (current w1))|exact Hb].
Qed.

Lemma run_scrape_success s query total_pages scroll_count df w :
  run_scrape s query total_pages scroll_count = (Ret df, w) ->
  exists results w',
    traverse query total_pages scroll_count (build_driver s)
    = (Ret results, w')
    /\ df = aggregate results /\ log w = log w' ++ [EvQuit].
Proof.
  unfold run_scrape, try_finally, pipeline, mbind, ret.
  destruct (traverse query total_pages scroll_count (build_driver s))
    as [[results|e] w'] eqn:E; rewrite release_quits;
    intros H; [|discriminate].
  injection H as <- <-. exists results, w'. auto.
Qed.

(** X6. A run that returns a frame has scrolled [scroll_count] times and
    then extracted once on each of the pages 1, 2, ..., [total_pages], in
    that order, and has done no other scroll or extraction; with a page
    count below two it has worked on page 1 alone. *)
Theorem run_scrape_works_page_by_page :
  forall s query total_pages scroll_count df w,
    run_scrape s query total_pages scroll_count = (Ret df, w) ->
    work (log w)
    = flat_map (page_work scroll_count) (pages_of total_pages)
    /\ ((total_pages <= 1)%Z ->
        work (log w) = page_work scroll_count 1).
Proof.
  intros s query total_pages scroll_count df w H.
  apply run_scrape_success in H as (results & w' & Ht & _ & Hlog).
  apply traverse_success in Ht as [Hw _].
  assert (Hwork : work (log w)
                  = flat_map (page_work scroll_count) (pages_of total_pages)).
  { rewrite Hlog, work_app, Hw. simpl. now rewrite app_nil_r. }
  split; [exact Hwork|].
  intros Hn. rewrite Hwork. unfold pages_of, py_range.
  replace (Z.to_nat (total_pages + 1 - 2)) with 0%nat by lia.
  simpl. now rewrite app_nil_r.
Qed.

(** X6 on the run over the two sample pages. *)
Lemma run_scrape_works_page_by_page_witness :
  work (log (snd (run_scrape sample_site (u "agents") 2 2)))
  = [EvScroll; EvScroll; EvExtract 1; EvScroll; EvScroll; EvExtract 2].
Proof.
  apply (proj1 (@run_scrape_works_page_by_page sample_site (u "agents")
                  2%Z 2%Z
                  (aggregate
                     [ mkRecord 1 1 (u "Alpha") 5; mkRecord 1 2 (u "Beta") 20;
                       mkRecord 2 1 (u "Gamma") 20 ])
                  (snd (run_scrape sample_site (u "agents") 2 2))
                  ltac:(vm_compute; reflexivity))).
Defined.

(** ** Places are unique, the order is strict *)

Lemma numbered_place p cards :
  forall start,
    map place (numbered p start cards)
    = map (fun i => (p, (start + Z.of_nat i)%Z)) (seq 1 (List.length cards)).
Proof.
  induction cards as [|c cs IH]; intros start;
    cbn [numbered map List.length seq place page rank]; [reflexivity|].
  f_equal.
  rewrite IH, <- (seq_shift _ 1), map_map.
  apply map_ext. intros i. f_equal. lia.
Qed.

Lemma block_of_places p items :
  block_of p items ->
  NoDup (map place items) /\ Forall (fun r => page r = p) items.
Proof.
  intros (root & ->). split; [|apply numbered_page].
  rewrite numbered_place.
  assert (H : forall l, NoDup l ->
                NoDup (map (fun i => (p, (0 + Z.of_nat i)%Z)) l)).
  { induction 1 as [|x l Hx _ IH]; simpl; constructor; [|exact IH].
    rewrite in_map_iff. intros (y & Hy & Hin).
    injection Hy as Hy. assert (y = x) by lia. now subst y. }
  apply H, seq_NoDup.
Qed.

Lemma py_range_bounds lo hi x : In x (py_range lo hi) -> (lo <= x < hi)%Z.
Proof.
  unfold py_range. rewrite in_map_iff. intros (i & <- & Hi).
  apply in_seq in Hi. lia.
Qed.

Lemma py_range_NoDup lo hi : NoDup (py_range lo hi).
Proof.
  unfold py_range. generalize (seq_NoDup (Z.to_nat (hi - lo)) 0).
  generalize (seq 0 (Z.to_nat (hi - lo))).
  induction 1 as [|x l Hx _ IH]; simpl; constructor; [|exact IH].
  rewrite in_map_iff. intros (y & Hy & Hin).
  assert (y = x) by lia. now subst y.
Qed.

Lemma pages_of_NoDup total_pages : NoDup (pages_of total_pages).
Proof.
  unfold pages_of. constructor; [|apply py_range_NoDup].
  intros H. apply py_range_bounds in H. lia.
Qed.

Lemma blocks_places ps blocks :
  Forall2 block_of ps blocks -> NoDup ps ->
  NoDup (map place (List.concat blocks))
  /\ Forall (fun r => In (page r) ps) (List.concat blocks).
Proof.
  induction 1 as [|p items ps blocks Hb _ IH]; intros Hnd; simpl.
  - split; constructor.
  - inversion Hnd as [|? ? Hp Hps]; subst.
    destruct (IH Hps) as [IHn IHp].
    destruct (block_of_places Hb) as [Hn Hpg].
    split.
    + rewrite map_app. apply NoDup_app; [exact Hn|exact IHn|].
      intros [pg rk] H1 H2.
      apply in_map_iff in H1 as (r1 & E1 & Hr1).
      apply in_map_iff in H2 as (r2 & E2 & Hr2).
      rewrite Forall_forall in Hpg, IHp.
      apply Hpg in Hr1. apply IHp in Hr2.
      unfold place in E1, E2. injection E1 as E1 _. injection E2 as E2 _.
      apply Hp. congruence.
    + apply Forall_app. split.
      * eapply Forall_impl; [|exact Hpg]. intros r ->. now left.
      * eapply Forall_impl; [|exact IHp]. intros r Hr. now right.
Qed.

Lemma key_leb_strict a b :
  key_leb a b = true -> place a <> place b -> stands_before a b.
Proof.
  unfold key_leb, place, stands_before. intros H Hne.
  assert (page a <> page b \/ rank a <> rank b).
  { destruct (Z.eq_dec (page a) (page b)) as [Hp|Hp]; [|now left].
    right. intros Hr. apply Hne. now rewrite Hp, Hr. }
  lia.
Qed.

(** X7. In the frame a run returns no two rows have the same page and
    rank, every row's page is one of the pages asked for, and the order
    is strict: of two rows the earlier one has more citations, or as
    many and an earlier page, or as many on the same page and a smaller
    rank. *)
Theorem run_scrape_rows_are_strictly_ordered :
  forall s query total_pages scroll_count df w,
    run_scrape s query total_pages scroll_count = (Ret df, w) ->
    NoDup (map place df)
    /\ Forall (fun r => In (page r) (pages_of total_pages)) df
    /\ (forall i j a b,
          (i < j)%nat ->
          nth_error df i = Some a -> nth_error df j = Some b ->
          stands_before a b).
Proof.
  intros s query total_pages scroll_count df w H.
  apply run_scrape_success in H as (results & w' & Ht & -> & _).
  apply traverse_success in Ht as (_ & blocks & -> & Hb).
  destruct (blocks_places Hb (pages_of_NoDup total_pages)) as [Hn Hp].
  pose proof (aggregate_places (List.concat blocks)) as Hperm.
  assert (Hnd : NoDup (map place (aggregate (List.concat blocks)))).
  { eapply Permutation_NoDup; [exact Hperm|exact Hn]. }
  split; [exact Hnd|]. split.
  { apply (proj1 (Forall_map place
                    (fun pl => In (fst pl) (pages_of total_pages)) _)).
    eapply Permutation_Forall; [exact Hperm|].
    apply Forall_map. exact Hp. }
  intros i j a b Hij Ha Hb'.
  apply key_leb_strict.
  - exact (sorted_nth (aggregate_sorted (List.concat blocks)) Hij Ha Hb').
  - intros Heq.
    assert (Hi : (i < List.length (map place (aggregate (List.concat blocks))))%nat).
    { rewrite length_map. apply nth_error_Some. now rewrite Ha. }
    assert (E : nth_error (map place (aggregate (List.concat blocks))) i
                = nth_error (map place (aggregate (List.concat blocks))) j).
    { rewrite !nth_error_map, Ha, Hb'. simpl. now rewrite Heq. }
    pose proof (proj1 (NoDup_nth_error _) Hnd i j Hi E). lia.
Qed.

(** X7 on the run over the two sample pages. *)
Lemma run_scrape_rows_are_strictly_ordered_witness :
  NoDup (map place
           [ mkRecord 1 2 (u "Beta") 20; mkRecord 2 1 (u "Gamma") 20;
             mkRecord 1 1 (u "Alpha") 5 ]).
Proof.
  apply (proj1 (@run_scrape_rows_are_strictly_ordered sample_site
                  (u "agents") 2%Z 2%Z
                  [ mkRecord 1 2 (u "Beta") 20; mkRecord 2 1 (u "Gamma") 20;
                    mkRecord 1 1 (u "Alpha") 5 ]
                  (snd (run_scrape sample_site (u "agents") 2 2))
                  ltac:(vm_compute; reflexivity))).
Defined.

(** ** How a run can end *)

(** Either the script is not stopped and the run met no challenge, or it
    is stopped and the challenge, the warning and the release end the
    trace. *)
Lemma run_scrape_gate s query total_pages scroll_count :
  let r := run_scrape s query total_pages scroll_count in
  (fst r <> Raise StopException /\ calm (log (snd r)))
  \/ (fst r = Raise StopException
      /\ exists ev0 pg,
           log (snd r) = ev0 ++ [EvLoaded pg; EvCaptchaWarning; EvQuit]
           /\ challenged pg = true /\ calm ev0).
Proof.
  cbv zeta. rewrite run_scrape_unfold. cbn [fst snd emit log].
  destruct (gated_pipeline query total_pages scroll_count (build_driver s))
    as (ev & Hlog & _ & Hcase).
  rewrite Hlog. cbn [build_driver log app].
  destruct Hcase as [[Hcalm Hne]|(ev0 & pg & -> & Hc0 & Hpg & Hstop)].
  - left. split; [exact Hne|].
    apply calm_app; [exact Hcalm|]. apply calm_one; discriminate.
  - right. split; [exact Hstop|].
    exists ev0, pg. rewrite <- app_assoc. auto.
Qed.

Lemma run_scrape_unencodable s query total_pages scroll_count :
  quote_plus query = Raise ValueError ->
  run_scrape s query total_pages scroll_count
  = (Raise ValueError, emit EvQuit (build_driver s)).
Proof.
  intros Hq. rewrite run_scrape_unfold. unfold pipeline, traverse, mbind.
  rewrite open_with_query_cases. unfold search_url. rewrite Hq. reflexivity.
Qed.

(** X8. A run is stopped only when the last page loaded shows a
    challenge: the one warning and the release of the session are all
    that follows, and no page loaded before showed a challenge. When a
    run ends in another way, with a frame or with an exception, no page
    loaded during the run showed a challenge and no warning was given.
    A run over a query that cannot be encoded raises before any page is
    loaded, and releases the session. *)
Theorem run_scrape_outcomes :
  forall s query total_pages scroll_count,
    let r := run_scrape s query total_pages scroll_count in
    (fst r = Raise StopException ->
     exists ev0 pg,
       log (snd r) = ev0 ++ [EvLoaded pg; EvCaptchaWarning; EvQuit]
       /\ challenged pg = true /\ clean ev0
       /\ ~ In EvCaptchaWarning ev0)
    /\ (fst r <> Raise StopException ->
        clean (log (snd r)) /\ ~ In EvCaptchaWarning (log (snd r)))
    /\ (quote_plus query = Raise ValueError ->
        r = (Raise ValueError, emit EvQuit (build_driver s))).
Proof.
  intros s query total_pages scroll_count r.
  pose proof (run_scrape_gate s query total_pages scroll_count) as Hg.
  cbv zeta in Hg. fold r in Hg.
  split; [|split].
  - intros Hstop.
    destruct Hg as [[Hne _]|[_ (ev0 & pg & Hlog & Hpg & [Hc Hw])]];
      [contradiction|].
    exists ev0, pg. auto.
  - intros Hne. destruct Hg as [[_ Hcalm]|[Hstop _]]; [|contradiction].
    exact Hcalm.
  - apply run_scrape_unencodable.
Qed.

(** ** The name of the export *)

Lemma digit_char_range d : (48 <= digit_char d <= 57)%N.
Proof.
  unfold digit_char. pose proof (Z.mod_pos_bound d 10 ltac:(lia)). lia.
Qed.

Lemma digit_char_safe d : is_unsafe (digit_char d) = false.
Proof.
  pose proof (digit_char_range d) as H. unfold is_unsafe, unsafe_chars.
  cbn [existsb]. repeat rewrite orb_false_iff.
  repeat split; try reflexivity; apply N.eqb_neq; lia.
Qed.

Lemma strftime_stamp_safe t :
  Forall (fun c => is_unsafe c = false) (strftime_stamp t).
Proof.
  unfold strftime_stamp, pad4, pad2.
  repeat (apply Forall_app; split);
    repeat (constructor; try apply digit_char_safe); reflexivity.
Qed.

Lemma sanitize_fixed query :
  Forall (fun c => is_unsafe c = false) query -> sanitize query = query.
Proof.
  unfold sanitize. induction 1 as [|c q Hc _ IH]; simpl;
    [reflexivity|now rewrite Hc, IH].
Qed.

(** X9. The name of the export holds none of the nine characters of the
    pattern, whatever the query and the time; it is 37 characters longer
    than the query. Sanitizing twice is sanitizing once, and a query
    without such a character is left as it is. *)
Theorem export_file_name_is_safe :
  forall now query,
    Forall (fun c => is_unsafe c = false) (export_file_name now query)
    /\ List.length (export_file_name now query)
       = (37 + List.length query)%nat
    /\ sanitize (sanitize query) = sanitize query
    /\ (Forall (fun c => is_unsafe c = false) query ->
        sanitize query = query).
Proof.
  intros now query. split; [|split; [|split]].
  - unfold export_file_name.
    apply Forall_app; split; [vm_compute; repeat constructor|].
    apply Forall_app; split; [apply sanitize_safe|].
    apply Forall_app; split; [vm_compute; repeat constructor|].
    apply Forall_app; split;
      [apply strftime_stamp_safe|vm_compute; repeat constructor].
  - unfold export_file_name. rewrite !length_app.
    unfold sanitize. rewrite length_map.
    change (List.length (u "scholar_results_")) with 16%nat.
    change (List.length (u "_")) with 1%nat.
    change (List.length (u ".xlsx")) with 5%nat.
    change (List.length (strftime_stamp now)) with 15%nat. lia.
  - apply sanitize_fixed, sanitize_safe.
  - apply sanitize_fixed.
Qed.

(** X9 at a query without any of the nine characters. *)
Lemma export_file_name_is_safe_witness :
  sanitize (u "AI agents") = u "AI agents".
Proof.
  apply (proj2 (proj2 (proj2
           (export_file_name_is_safe (mkDatetime 2024 1 2 3 4 5)
              (u "AI agents"))))).
  vm_compute. repeat constructor.
Defined.

Lemma digit_char_inj a b :
  digit_char a = digit_char b -> (a mod 10 = b mod 10)%Z.
Proof.
  unfold digit_char. intros H.
  pose proof (Z.mod_pos_bound a 10 ltac:(lia)).
  pose proof (Z.mod_pos_bound b 10 ltac:(lia)).
  apply Z2N.inj in H; lia.
Qed.

Lemma pad2_inj a b :
  (0 <= a < 100)%Z -> (0 <= b < 100)%Z -> pad2 a = pad2 b -> a = b.
Proof.
  unfold pad2. intros Ha Hb H. injection H as H1 H0.
  apply digit_char_inj in H1, H0.
  revert H1 H0. Z.div_mod_to_equations. lia.
Qed.

Lemma pad4_inj a b :
  (0 <= a < 10000)%Z -> (0 <= b < 10000)%Z -> pad4 a = pad4 b -> a = b.
Proof.
  unfold pad4. intros Ha Hb H. injection H as H3 H2 H1 H0.
  apply digit_char_inj in H3, H2, H1, H0.
  revert H3 H2 H1 H0. Z.div_mod_to_equations. lia.
Qed.

(** X10. Two exports of one query made at different seconds get
    different names: for times written with a four-digit year, the file
    name determines the time. *)
Theorem export_file_name_tells_the_time :
  forall t1 t2 query,
    four_digit_time t1 -> four_digit_time t2 ->
    export_file_name t1 query = export_file_name t2 query ->
    t1 = t2.
Proof.
  intros [y1 mo1 d1 h1 mi1 s1] [y2 mo2 d2 h2 mi2 s2] query.
  unfold four_digit_time. cbn [year month day hour minute second].
  intros H1 H2 Heq. unfold export_file_name in Heq.
  do 3 apply app_inv_head in Heq. apply app_inv_tail in Heq.
  unfold strftime_stamp, pad4, pad2 in Heq.
  change (u "_") with [95%N] in Heq.
  cbn [app year month day hour minute second] in Heq.
  injection Heq. intros.
  assert (Hy : pad4 y1 = pad4 y2) by (unfold pad4; congruence).
  assert (Hmo : pad2 mo1 = pad2 mo2) by (unfold pad2; congruence).
  assert (Hd : pad2 d1 = pad2 d2) by (unfold pad2; congruence).
  assert (Hh : pad2 h1 = pad2 h2) by (unfold pad2; congruence).
  assert (Hmi : pad2 mi1 = pad2 mi2) by (unfold pad2; congruence).
  assert (Hs : pad2 s1 = pad2 s2) by (unfold pad2; congruence).
  apply pad4_inj in Hy; [|lia|lia].
  apply pad2_inj in Hmo; [|lia|lia].
  apply pad2_inj in Hd; [|lia|lia].
  apply pad2_inj in Hh; [|lia|lia].
  apply pad2_inj in Hmi; [|lia|lia].
  apply pad2_inj in Hs; [|lia|lia].
  now subst.
Qed.

(** X10 at two equal times. *)
Lemma export_file_name_tells_the_time_witness :
  mkDatetime 2024 1 2 3 4 5 = mkDatetime 2024 1 2 3 4 5.
Proof.
  apply (@export_file_name_tells_the_time
           (mkDatetime 2024 1 2 3 4 5) (mkDatetime 2024 1 2 3 4 5)
           (u "a/b")).
  - unfold four_digit_time. simpl. lia.
  - unfold four_digit_time. simpl. lia.
  - reflexivity.
Defined.

(** ** The page script *)

Lemma lstrip_blank query :
  Forall (fun c => is_space c = true) query -> lstrip query = [].
Proof.
  induction 1 as [|c q Hc _ IH]; simpl; [reflexivity|now rewrite Hc].
Qed.

Lemma strip_blank query :
  Forall (fun c => is_space c = true) query -> strip query = [].
Proof.
  intros H. unfold strip. now rewrite (lstrip_blank H).
Qed.

(** X11. A query made of blanks only, or empty, starts nothing: the
    page shows an error, the script stops, and no browser session is
    opened. *)
Theorem blank_query_opens_no_session :
  forall now to_excel s query total_pages scroll_count,
    Forall (fun c => is_space c = true) query ->
    on_run_button now to_excel s query total_pages scroll_count
    = (Raise StopException, [UiError], []).
Proof.
  intros now to_excel s query total_pages scroll_count H.
  unfold on_run_button. now rewrite (strip_blank H).
Qed.

(** X11 at a query of a blank, a tab and an ideographic space. *)
Lemma blank_query_opens_no_session_witness :
  on_run_button (mkDatetime 2024 1 2 3 4 5) (fun _ => []) sample_site
    [32; 9; 12288]%N 3 2
  = (Raise StopException, [UiError], []).
Proof.
  apply (@blank_query_opens_no_session (mkDatetime 2024 1 2 3 4 5)
           (fun _ => []) sample_site [32; 9; 12288]%N 3%Z 2%Z).
  repeat constructor.
Defined.

Lemma warnings_app ev1 ev2 :
  warnings (ev1 ++ ev2) = warnings ev1 ++ warnings ev2.
Proof. apply flat_map_app. Qed.

Lemma warnings_none ev : ~ In EvCaptchaWarning ev -> warnings ev = [].
Proof.
  induction ev as [|e ev IH]; intros H; [reflexivity|].
  cbn [warnings flat_map].
  destruct e; cbn [app]; try (apply IH; intros Hin; apply H; now right).
  exfalso. apply H. now left.
Qed.

(** X12. One press of the button ends normally or with the stop of the
    script, never with another exception. The page then shows one of:
    an error; the notice that nothing was collected; the warning
    of the challenge gate and nothing else, when the script was stopped
    at a challenge; or the count, the preview, the download and the note
    on the order for a frame that is not empty, the download carrying
    the bytes of that frame under the export name (the spreadsheet
    writer being taken to return its bytes). *)
Theorem on_run_button_shows :
  forall now to_excel s query total_pages scroll_count,
    let r := on_run_button now to_excel s query total_pages scroll_count in
    (fst (fst r) = Ret tt \/ fst (fst r) = Raise StopException)
    /\ (displayed r = [ShowUi UiError]
        \/ displayed r = [ShowUi UiNoResults]
        \/ (displayed r = [ShowCaptchaWarning]
            /\ fst (fst r) = Raise StopException
            /\ fst (run_scrape s query total_pages scroll_count)
               = Raise StopException)
        \/ exists df,
             df <> []
             /\ fst (run_scrape s query total_pages scroll_count) = Ret df
             /\ displayed r
                = [ ShowUi (UiSuccess (List.length df));
                    ShowUi (UiPreview df);
                    ShowUi (UiDownload (PyBytes (to_excel df))
                                       (PyStr (export_file_name now query))
                                       xlsx_mime);
                    ShowUi UiInfo ]).
Proof.
  intros now to_excel s query total_pages scroll_count r. subst r.
  unfold on_run_button.
  destruct (nonempty (strip query)); cbn [negb].
  2:{ cbn [fst snd]. split; [now right|now left]. }
  pose proof (run_scrape_gate s query total_pages scroll_count) as Hg.
  cbv zeta in Hg.
  destruct (run_scrape s query total_pages scroll_count) as [[df|e] w].
  - cbn [fst snd] in Hg.
    destruct Hg as [[_ [_ Hw]]|[Hs _]]; [|discriminate].
    destruct df as [|r df]; cbn [df_empty fst snd].
    + split; [now left|]. right. left.
      unfold displayed. cbn [fst snd]. now rewrite (warnings_none _ Hw).
    + unfold show_results, df_to_excel_bytes, unpack2. cbn [fst snd].
      split; [now left|]. right. right. right.
      exists (r :: df). split; [discriminate|]. split; [reflexivity|].
      unfold displayed. cbn [fst snd py_iter bind app].
      now rewrite (warnings_none _ Hw).
  - cbn [fst snd] in Hg. destruct (is_Exception e) eqn:Ee.
    + destruct Hg as [[_ [_ Hw]]|[Hs _]];
        [|injection Hs as ->; discriminate].
      cbn [fst snd]. split; [now left|]. left.
      unfold displayed. cbn [fst snd]. now rewrite (warnings_none _ Hw).
    + destruct e; try discriminate.
      destruct Hg as [[Hne _]|[_ (ev0 & pg & Hlog & _ & [_ Hw])]];
        [now contradiction Hne|].
      cbn [fst snd]. split; [now right|]. right. right. left.
      split; [|split; reflexivity].
      unfold displayed. cbn [fst snd].
      now rewrite Hlog, warnings_app, (warnings_none _ Hw).
Qed.

(** ** The exit hook *)

(** X13. The hook registered at exit never raises. It calls [quit] when
    the driver object is still alive and does nothing otherwise, so after
    a run and the exit of the process [quit] has been called twice on a
    driver that was still alive, and once on one that was not. *)
Theorem safe_quit_after_run :
  (forall alive w,
      safe_quit alive w = (Ret tt, if alive then emit EvQuit w else w))
  /\ (forall s query total_pages scroll_count alive,
        count_quit
          (log (snd (safe_quit alive
                       (snd (run_scrape s query total_pages scroll_count)))))
        = if alive then 2%nat else 1%nat).
Proof.
  split; [exact safe_quit_runs|].
  intros s query total_pages scroll_count alive.
  rewrite safe_quit_runs, run_scrape_unfold.
  destruct (gated_pipeline query total_pages scroll_count (build_driver s))
    as (ev & Hlog & Hq & _).
  destruct alive; cbn [fst snd emit log]; rewrite Hlog;
    cbn [build_driver log app]; rewrite !count_quit_app,
    (count_quit_none _ Hq); reflexivity.
Qed.

(** ** The encoded query *)

Lemma hex_digit_safe n : (n < 16)%N -> url_safe (hex_digit n) = true.
Proof.
  intros H. unfold hex_digit, url_safe, always_safe.
  destruct (n <? 10)%N eqn:E.
  - apply N.ltb_lt in E.
    assert (Hd : ((48 <=? 48 + n) && (48 + n <=? 57))%N = true)
      by (apply andb_true_iff; split; apply N.leb_le; lia).
    rewrite Hd, orb_true_r. reflexivity.
  - apply N.ltb_ge in E.
    assert (Hu : ((65 <=? 55 + n) && (55 + n <=? 90))%N = true)
      by (apply andb_true_iff; split; apply N.leb_le; lia).
    rewrite Hu. reflexivity.
Qed.

Lemma quote_byte_safe b :
  (b < 256)%N -> Forall (fun c => url_safe c = true) (quote_byte b).
Proof.
  intros Hb. unfold quote_byte.
  destruct (always_safe b) eqn:Es.
  - constructor; [|constructor]. unfold url_safe. now rewrite Es.
  - destruct (b =? 32)%N; repeat constructor.
    + apply hex_digit_safe. apply N.Div0.div_lt_upper_bound. lia.
    + apply hex_digit_safe. apply N.mod_upper_bound. lia.
Qed.

Lemma utf8_encode_char_cases c :
  is_code_point c ->
  if is_surrogate c then utf8_encode_char c = Raise ValueError
  else exists bs,
      utf8_encode_char c = Ret bs /\ Forall (fun b => (b < 256)%N) bs.
Proof.
  unfold is_code_point, is_surrogate, utf8_encode_char. intros Hc.
  pose proof (N.mod_upper_bound c 64 ltac:(lia)).
  pose proof (N.mod_upper_bound (c / 64) 64 ltac:(lia)).
  pose proof (N.mod_upper_bound (c / 4096) 64 ltac:(lia)).
  destruct (c <? 128)%N eqn:E1; destruct (c <? 2048)%N eqn:E2;
    destruct ((55296 <=? c) && (c <=? 57343))%N eqn:Es;
    destruct (c <? 65536)%N eqn:E3;
    repeat match goal with
      | H : (_ <? _)%N = true |- _ => apply N.ltb_lt in H
      | H : (_ <? _)%N = false |- _ => apply N.ltb_ge in H
      | H : (_ && _) = true |- _ => apply andb_true_iff in H as [? ?]
      | H : (_ <=? _)%N = true |- _ => apply N.leb_le in H
      end;
    try (exfalso; lia); try reflexivity;
    (eexists; split; [reflexivity|]).
  all: try assert (c / 64 < 32)%N
    by (apply N.Div0.div_lt_upper_bound; lia).
  all: try assert (c / 4096 < 16)%N
    by (apply N.Div0.div_lt_upper_bound; lia).
  all: assert (c / 262144 < 5)%N
    by (apply N.Div0.div_lt_upper_bound; lia).
  all: repeat constructor; lia.
Qed.

Lemma utf8_encode_cases s :
  Forall is_code_point s ->
  if existsb is_surrogate s then utf8_encode s = Raise ValueError
  else exists bs,
      utf8_encode s = Ret bs /\ Forall (fun b => (b < 256)%N) bs.
Proof.
  induction 1 as [|c s Hc _ IH]; cbn [existsb utf8_encode].
  - exists []. split; [reflexivity|constructor].
  - pose proof (utf8_encode_char_cases Hc) as H.
    destruct (is_surrogate c); cbn [orb].
    + now rewrite H.
    + destruct H as (bs & -> & Hbs). cbn [bind].
      destruct (existsb is_surrogate s).
      * now rewrite IH.
      * destruct IH as (rest & -> & Hrest). cbn [bind].
        eexists. split; [reflexivity|]. apply Forall_app. now split.
Qed.

Lemma utf8_encode_plain s :
  Forall (fun c => always_safe c = true) s ->
  utf8_encode s = Ret s /\ flat_map quote_byte s = s.
Proof.
  induction 1 as [|c s Hc _ [IH1 IH2]]; cbn [utf8_encode flat_map].
  - split; reflexivity.
  - assert (Hlt : (c <? 128)%N = true).
    { unfold always_safe in Hc. apply N.ltb_lt.
      repeat rewrite ?orb_true_iff, ?andb_true_iff, ?N.leb_le, ?N.eqb_eq
        in Hc. lia. }
    unfold utf8_encode_char. rewrite Hlt. cbn [bind]. rewrite IH1.
    cbn [bind app]. split; [reflexivity|].
    rewrite IH2. unfold quote_byte. rewrite Hc. reflexivity.
Qed.

(** X14. For a query that is a string of code points: encoding it fails
    (with a [ValueError]) exactly when it holds a surrogate; otherwise
    every character of the encoded query is a letter, a digit or one of
    [_ . - ~ + %], so the query cannot add a parameter or a fragment to
    the address, and the address of the search is the template with the
    encoded query in it. A query of letters, digits and [_ . - ~] is
    encoded as itself. *)
Theorem quote_plus_is_url_safe :
  forall query,
    Forall is_code_point query ->
    (existsb is_surrogate query = true ->
     quote_plus query = Raise ValueError
     /\ search_url query = Raise ValueError)
    /\ (existsb is_surrogate query = false ->
        exists encoded,
          quote_plus query = Ret encoded
          /\ Forall (fun c => url_safe c = true) encoded
          /\ search_url query
             = Ret (u "https://scholar.google.co.kr/scholar?hl=ko&as_sdt=0%2C5&q="
                    ++ encoded ++ u "&btnG="))
    /\ (Forall (fun c => always_safe c = true) query ->
        quote_plus query = Ret query).
Proof.
  intros query Hq. pose proof (utf8_encode_cases Hq) as H.
  split; [|split].
  - intros Hs. rewrite Hs in H. unfold search_url, quote_plus.
    now rewrite H.
  - intros Hs. rewrite Hs in H. destruct H as (bs & Hbs & Hlt).
    exists (flat_map quote_byte bs). unfold search_url, quote_plus.
    rewrite Hbs. cbn [bind]. split; [reflexivity|].
    split; [|reflexivity].
    clear Hbs. induction Hlt as [|b bs Hb _ IH]; cbn [flat_map];
      [constructor|].
    apply Forall_app. split; [now apply quote_byte_safe|exact IH].
  - intros Hp. destruct (utf8_encode_plain Hp) as [H1 H2].
    unfold quote_plus. rewrite H1. cbn [bind]. now rewrite H2.
Qed.

Lemma code_points_check s :
  forallb (fun c => (c <=? 0x10FFFF)%N) s = true -> Forall is_code_point s.
Proof.
  intros H. apply Forall_forall. intros c Hc.
  rewrite forallb_forall in H. apply N.leb_le. now apply H.
Qed.

(** X14 at a query of Latin and Hangul letters with a blank. *)
Lemma quote_plus_is_url_safe_witness :
  exists encoded,
    quote_plus (u "AI 에이전트") = Ret encoded
    /\ Forall (fun c => url_safe c = true) encoded
    /\ search_url (u "AI 에이전트")
       = Ret (u "https://scholar.google.co.kr/scholar?hl=ko&as_sdt=0%2C5&q="
              ++ encoded ++ u "&btnG=").
Proof.
  apply (proj1 (proj2 (@quote_plus_is_url_safe (u "AI 에이전트")
                         (@code_points_check (u "AI 에이전트")
                            ltac:(vm_compute; reflexivity))))).
  vm_compute. reflexivity.
Defined.

(** ** A later page without results *)

Lemma py_range_cons lo hi :
  (lo < hi)%Z -> py_range lo hi = lo :: py_range (lo + 1) hi.
Proof.
  intros H. unfold py_range.
  replace (Z.to_nat (hi - lo)) with (S (Z.to_nat (hi - (lo + 1)))) by lia.
  cbn [seq map]. f_equal; [lia|].
  rewrite <- seq_shift, map_map. apply map_ext. intros i. lia.
Qed.

Lemma open_with_query_site query w :
  the_site (snd (open_with_query query w)) = the_site w.
Proof. apply (steady_open_with_query query w). Qed.

(** Where [open_with_query] returns, the query has an encoding. *)
Lemma open_with_query_encodes query w :
  fst (open_with_query query w) = Ret tt ->
  exists encoded, quote_plus query = Ret encoded.
Proof.
  rewrite open_with_query_cases. unfold search_url.
  destruct (quote_plus query) as [encoded|e]; [eauto|discriminate].
Qed.

(** X15. When more than one page is asked for and the second page comes
    without any result card (and without a challenge), the run ends with
    a timeout: the records collected on the first page are not
    returned. *)
Theorem run_scrape_times_out_on_page_without_cards :
  forall s query total_pages scroll_count pg,
    (2 <= total_pages)%Z ->
    fst (open_with_query query (build_driver s)) = Ret tt ->
    respond s (ReqOffset 10 query) = Loads pg ->
    challenged pg = false ->
    present sel_card (document pg) = false ->
    fst (run_scrape s query total_pages scroll_count)
    = Raise TimeoutException.
Proof.
  intros s query total_pages scroll_count pg Hn Hopen Hl Hc Hp.
  destruct (open_with_query_encodes _ _ Hopen) as [encoded Hq].
  rewrite run_scrape_unfold. cbn [fst].
  unfold pipeline, traverse, mbind.
  pose proof (open_with_query_site query (build_driver s)) as Hsite.
  destruct (open_with_query query (build_driver s)) as [[[]|e] w1];
    [|discriminate].
  cbn [snd build_driver the_site] in Hsite.
  rewrite scroll_page_runs. unfold collect_page_items.
  cbn [current the_site log]. rewrite page_items_returns.
  rewrite (@py_range_cons 2 (total_pages + 1)) by lia.
  cbn [visit_pages]. unfold mbind. rewrite go_to_page_cases.
  unfold emit. cbn [the_site]. rewrite Hsite.
  unfold offset_url. rewrite Hq.
  change ((2 - 1) * 10)%Z with 10%Z.
  replace (format_int 10) with (Ret (u "10")) by (vm_compute; reflexivity).
  cbn [bind]. rewrite Hl, Hc, Hp. reflexivity.
Qed.

(** X15 on the site that has nothing for the query. *)
Lemma run_scrape_times_out_on_page_without_cards_witness :
  fst (run_scrape barren_site (u "zzz") 3 1) = Raise TimeoutException.
Proof.
  apply (@run_scrape_times_out_on_page_without_cards barren_site
           (u "zzz") 3%Z 1%Z no_results_page).
  - lia.
  - vm_compute. reflexivity.
  - reflexivity.
  - vm_compute. reflexivity.
  - vm_compute. reflexivity.
Defined.

(** ** The offset in the address *)

Lemma digit_value_digit_char d :
  digit_value (digit_char d) = Some (d mod 10)%Z.
Proof.
  pose proof (digit_char_range d) as H.
  unfold digit_value, nd_zeros. cbn [digit_in].
  replace ((0x30 <=? digit_char d) && (digit_char d <? 0x30 + 10))%N
    with true.
  - f_equal. unfold digit_char.
    pose proof (Z.mod_pos_bound d 10 ltac:(lia)). lia.
  - symmetry. apply andb_true_iff. split.
    + apply N.leb_le. lia.
    + apply N.ltb_lt. lia.
Qed.

Lemma dec_digits_value fuel :
  forall n acc,
    (0 <= n < 10 ^ Z.of_nat fuel)%Z -> all_digits acc ->
    all_digits (dec_digits fuel n acc)
    /\ run_value (dec_digits fuel n acc)
       = (n * 10 ^ Z.of_nat (List.length acc) + run_value acc)%Z.
Proof.
  induction fuel as [|fuel IH]; intros n acc Hn Hacc.
  - simpl in Hn. assert (n = 0%Z) by lia. subst n. simpl. split; auto.
  - cbn [dec_digits].
    assert (Hd : is_digit (digit_char n) = true)
      by (unfold is_digit; now rewrite digit_value_digit_char).
    assert (Hv : run_value (digit_char n :: acc)
                 = ((n mod 10) * 10 ^ Z.of_nat (List.length acc)
                    + run_value acc)%Z)
      by (cbn [run_value]; now rewrite digit_value_digit_char).
    destruct (n <? 10)%Z eqn:E.
    + apply Z.ltb_lt in E. split; [now constructor|].
      rewrite Hv, Z.mod_small by lia. reflexivity.
    + apply Z.ltb_ge in E.
      rewrite Nat2Z.inj_succ, Z.pow_succ_r in Hn by lia.
      destruct (IH (n / 10)%Z (digit_char n :: acc)) as [Ha Hr].
      * split; [apply Z.div_pos; lia|].
        apply Z.div_lt_upper_bound; lia.
      * now constructor.
      * split; [exact Ha|]. rewrite Hr, Hv.
        cbn [List.length]. rewrite Nat2Z.inj_succ, Z.pow_succ_r by lia.
        pose proof (Z.div_mod n 10 ltac:(lia)) as Hdm.
        set (p := (10 ^ Z.of_nat (List.length acc))%Z).
        rewrite Hdm at 3. ring.
Qed.

Lemma dec_digits_nonempty fuel :
  forall n acc, acc <> [] -> dec_digits fuel n acc <> [].
Proof.
  induction fuel as [|fuel IH]; intros n acc Hacc; cbn [dec_digits];
    [exact Hacc|].
  destruct (n <? 10)%Z; [discriminate|]. apply IH. discriminate.
Qed.

Lemma log2_fuel z :
  (0 <= z)%Z -> (z < 10 ^ Z.of_nat (S (Z.to_nat (Z.log2 z))))%Z.
Proof.
  intros Hz. destruct (Z.eq_dec z 0) as [->|Hne]; [reflexivity|].
  pose proof (Z.log2_nonneg z).
  pose proof (proj2 (Z.log2_spec z ltac:(lia))) as Hl.
  rewrite Nat2Z.inj_succ, Z2Nat.id by lia.
  eapply Z.lt_le_trans; [exact Hl|].
  apply Z.pow_le_mono_l. lia.
Qed.

Lemma int_to_str_value z :
  (0 <= z)%Z ->
  all_digits (int_to_str z) /\ int_to_str z <> []
  /\ run_value (int_to_str z) = z.
Proof.
  intros Hz. unfold int_to_str.
  replace (z <? 0)%Z with false by lia.
  rewrite Z.abs_eq by lia.
  assert (Hb : (0 <= z < 10 ^ Z.of_nat (S (Z.to_nat (Z.log2 z))))%Z)
    by (split; [exact Hz|now apply log2_fuel]).
  destruct (@dec_digits_value (S (Z.to_nat (Z.log2 z))) z [] Hb
              (Forall_nil _)) as [Ha Hr].
  split; [exact Ha|]. split.
  - cbn [dec_digits]. destruct (z <? 10)%Z; [discriminate|].
    apply dec_digits_nonempty. discriminate.
  - rewrite Hr. simpl. lia.
Qed.

Lemma dec_digits_length fuel :
  forall n k acc,
    (1 <= k)%nat -> (0 <= n < 10 ^ Z.of_nat k)%Z ->
    (List.length (dec_digits fuel n acc) <= k + List.length acc)%nat.
Proof.
  induction fuel as [|fuel IH]; intros n k acc Hk Hn; cbn [dec_digits].
  - lia.
  - destruct (n <? 10)%Z eqn:E.
    + cbn [List.length]. lia.
    + apply Z.ltb_ge in E. destruct k as [|[|k]]; [lia| |].
      * change (10 ^ Z.of_nat 1)%Z with 10%Z in Hn. lia.
      * assert (Hd : (0 <= n / 10 < 10 ^ Z.of_nat (S k))%Z).
        { rewrite Nat2Z.inj_succ, Z.pow_succ_r in Hn by lia.
          split; [apply Z.div_pos; lia|].
          apply Z.div_lt_upper_bound; lia. }
        pose proof (IH (n / 10)%Z (S k) (digit_char n :: acc)
                      ltac:(lia) Hd) as Hlen.
        cbn [List.length] in Hlen. lia.
Qed.

(** A number that is not negative and below ten to the limit is written
    with no more digits than the limit. *)
Lemma int_to_str_length z :
  (0 <= z < 10 ^ int_max_str_digits)%Z ->
  (Z.of_nat (List.length (int_to_str z)) <= int_max_str_digits)%Z.
Proof.
  intros Hz. unfold int_to_str.
  replace (z <? 0)%Z with false by lia.
  assert (Hk : Z.of_nat (Z.to_nat int_max_str_digits) = int_max_str_digits)
    by (apply Z2Nat.id; unfold int_max_str_digits; lia).
  rewrite <- Hk in Hz.
  pose proof (@dec_digits_length (S (Z.to_nat (Z.log2 (Z.abs z)))) z
                (Z.to_nat int_max_str_digits) []
                ltac:(unfold int_max_str_digits; lia) Hz) as Hlen.
  cbn [List.length] in Hlen. lia.
Qed.

Lemma format_int_small z :
  (0 <= z < 10 ^ int_max_str_digits)%Z ->
  format_int z = Ret (int_to_str z).
Proof.
  intros Hz. pose proof (int_to_str_length Hz) as Hlen.
  unfold format_int. replace (z <? 0)%Z with false by lia.
  destruct (Z.ltb_spec int_max_str_digits
              (Z.of_nat (List.length (int_to_str z)))); [lia|reflexivity].
Qed.

Lemma dec_digits_grows fuel :
  forall n acc,
    (List.length acc <= List.length (dec_digits fuel n acc))%nat.
Proof.
  induction fuel as [|fuel IH]; intros n acc; cbn [dec_digits]; [lia|].
  destruct (n <? 10)%Z; cbn [List.length]; [lia|].
  pose proof (IH (n / 10)%Z (digit_char n :: acc)) as H.
  cbn [List.length] in H. lia.
Qed.

Lemma dec_digits_long fuel :
  forall n k acc,
    (10 ^ Z.of_nat k <= n < 10 ^ Z.of_nat fuel)%Z ->
    (k + 1 + List.length acc <= List.length (dec_digits fuel n acc))%nat.
Proof.
  induction fuel as [|fuel IH]; intros n k acc Hn.
  - exfalso.
    assert (0 < 10 ^ Z.of_nat k)%Z by (apply Z.pow_pos_nonneg; lia).
    change (10 ^ Z.of_nat 0)%Z with 1%Z in Hn. lia.
  - cbn [dec_digits]. destruct (n <? 10)%Z eqn:E.
    + apply Z.ltb_lt in E. destruct k as [|k]; [cbn [List.length]; lia|].
      exfalso. rewrite (Nat2Z.inj_succ k), Z.pow_succ_r in Hn by lia.
      assert (0 < 10 ^ Z.of_nat k)%Z by (apply Z.pow_pos_nonneg; lia).
      lia.
    + apply Z.ltb_ge in E. destruct k as [|k].
      * pose proof (dec_digits_grows fuel (n / 10) (digit_char n :: acc))
          as H.
        cbn [List.length] in H. lia.
      * assert (Hd : (10 ^ Z.of_nat k <= n / 10 < 10 ^ Z.of_nat fuel)%Z).
        { rewrite !Nat2Z.inj_succ, !Z.pow_succ_r in Hn by lia.
          split; [apply Z.div_le_lower_bound; lia|].
          apply Z.div_lt_upper_bound; lia. }
        pose proof (IH _ _ (digit_char n :: acc) Hd) as H.
        cbn [List.length] in H. lia.
Qed.

(** A number from ten to the limit on is not written out. *)
Lemma format_int_long z :
  (10 ^ int_max_str_digits <= z)%Z -> format_int z = Raise ValueError.
Proof.
  intros Hz.
  assert (Hpos : (0 < 10 ^ int_max_str_digits)%Z)
    by (apply Z.pow_pos_nonneg; unfold int_max_str_digits; lia).
  assert (Hk : Z.of_nat (Z.to_nat int_max_str_digits) = int_max_str_digits)
    by (apply Z2Nat.id; unfold int_max_str_digits; lia).
  unfold format_int, int_to_str.
  replace (z <? 0)%Z with false by lia. rewrite Z.abs_eq by lia.
  pose proof (log2_fuel (z := z) ltac:(lia)) as Hf.
  rewrite <- Hk in Hz.
  pose proof (@dec_digits_long (S (Z.to_nat (Z.log2 z))) z
                (Z.to_nat int_max_str_digits) [] (conj Hz Hf)) as Hlen.
  cbn [List.length] in Hlen.
  destruct (Z.ltb_spec int_max_str_digits
              (Z.of_nat (List.length
                           (dec_digits (S (Z.to_nat (Z.log2 z))) z []))));
    [reflexivity|lia].
Qed.

(** X16. For a page number from 1 on whose offset has no more digits
    than the interpreter writes out, the address of [go_to_page] is the
    fixed text with the offset and the encoded query in it; the offset is
    written in decimal digits and reads back as ten times the page number
    less one, so page 1 has offset 0 and each further page adds ten.
    For a page number whose offset has more digits the address cannot be
    built. *)
Theorem offset_url_start :
  (forall query page_index encoded,
      (1 <= page_index)%Z ->
      ((page_index - 1) * 10 < 10 ^ int_max_str_digits)%Z ->
      quote_plus query = Ret encoded ->
      offset_url query page_index
      = Ret (u "https://scholar.google.co.kr/scholar?start="
             ++ int_to_str ((page_index - 1) * 10)
             ++ u "&q=" ++ encoded ++ u "&hl=ko&as_sdt=0,5")
      /\ all_digits (int_to_str ((page_index - 1) * 10))
      /\ py_int (int_to_str ((page_index - 1) * 10))
         = Ret ((page_index - 1) * 10)%Z)
  /\ (forall query page_index encoded,
        (10 ^ int_max_str_digits <= (page_index - 1) * 10)%Z ->
        quote_plus query = Ret encoded ->
        offset_url query page_index = Raise ValueError).
Proof.
  split.
  - intros query page_index encoded Hp Hb Hq.
    assert (Hz : (0 <= (page_index - 1) * 10 < 10 ^ int_max_str_digits)%Z)
      by lia.
    split.
    + unfold offset_url. rewrite Hq. cbn [bind].
      now rewrite (format_int_small Hz).
    + destruct (@int_to_str_value ((page_index - 1) * 10)%Z ltac:(lia))
        as (Ha & Hne & Hv).
      split; [exact Ha|].
      now rewrite (py_int_value Hne Ha (int_to_str_length Hz)), Hv.
  - intros query page_index encoded Hb Hq.
    unfold offset_url. rewrite Hq. cbn [bind].
    now rewrite (format_int_long Hb).
Qed.

(** X16 at the third page of a query. *)
Lemma offset_url_start_witness :
  offset_url (u "AI agents") 3
  = Ret (u "https://scholar.google.co.kr/scholar?start=20&q=AI+agents&hl=ko&as_sdt=0,5").
Proof.
  destruct (proj1 offset_url_start (u "AI agents") 3%Z (u "AI+agents")
              ltac:(lia) ltac:(vm_compute; reflexivity)
              ltac:(vm_compute; reflexivity)) as [H _].
  rewrite H. vm_compute. reflexivity.
Defined.

(** X8 on the run that meets a challenge on its third page. *)
Lemma run_scrape_outcomes_witness :
  exists ev0 pg,
    log (snd (run_scrape challenging_site (u "agents") 3 1))
    = ev0 ++ [EvLoaded pg; EvCaptchaWarning; EvQuit]
    /\ challenged pg = true /\ clean ev0 /\ ~ In EvCaptchaWarning ev0.
Proof.
  apply (proj1 (run_scrape_outcomes challenging_site (u "agents")
                  3%Z 1%Z)).
  vm_compute. reflexivity.
Defined.
